(** * WebhookService: retry loop, cancellation and reply decoding

    A shallow embedding of [WebhookService] (services/webhookService.ts):
    the class that posts a recorded audio blob to the webhook, retries with
    exponential backoff, and turns the reply into the value handed to the
    conversation hook.

    Browser facilities the class calls ([JSON.parse], [atob], [fetch],
    [Response.json], [Response.text], [navigator.userAgent]) are inputs of
    the model: pure ones are fields of a [Platform], the network is an
    oracle indexed by attempt number.  [AbortController]s and the blob URL
    store are kept in an explicit [State].  A call yields its outcome, the
    trace of its backoff waits and [fetch] calls, and the final state.
    Logging ([console.log], [getNetworkInfo]) has no effect on any of these
    and is left out. *)

From Stdlib Require Import Ascii.
From stdpp Require Import base strings list sets pretty.

Set Warnings "-register-all".

(** ** Strings *)

(** [String.prototype.startsWith]: on success the rest of the string. *)
Fixpoint strip_prefix (p s : string) : option string :=
  match p, s with
  | EmptyString, _ => Some s
  | String a p', String b s' => if Ascii.eqb a b then strip_prefix p' s' else None
  | String _ _, EmptyString => None
  end.

Definition starts_with (p s : string) : bool :=
  match strip_prefix p s with Some _ => true | None => false end.

(** [s.includes(needle)] *)
Fixpoint includes (needle s : string) : bool :=
  starts_with needle s ||
  match s with
  | EmptyString => false
  | String _ s' => includes needle s'
  end.

Definition lower_ascii (c : ascii) : ascii :=
  let n := nat_of_ascii c in
  if (65 <=? n) && (n <=? 90) then ascii_of_nat (n + 32) else c.

Fixpoint lower (s : string) : string :=
  match s with
  | EmptyString => EmptyString
  | String c s' => String (lower_ascii c) (lower s')
  end.

(** The longest run of characters other than [;] at the front of [s], and
    what follows it. *)
Fixpoint span_not_semicolon (s : string) : string * string :=
  match s with
  | EmptyString => (EmptyString, EmptyString)
  | String c s' =>
      if Ascii.eqb c ";"%char then (EmptyString, s)
      else let '(run, rest) := span_not_semicolon s' in (String c run, rest)
  end.

Fixpoint char_codes (s : string) : list nat :=
  match s with
  | EmptyString => []
  | String c s' => nat_of_ascii c :: char_codes s'
  end.

Definition dquote : string := String (ascii_of_nat 34) EmptyString.

(** ** JavaScript values

    The values [JSON.parse] and [Response.json] produce, plus [undefined].
    The service never computes with numbers: it tests them for truthiness
    and passes them on, so a number is kept as its canonical rendering
    ([Number.prototype.toString]: ["0"], ["1.5"], ["Infinity"], ...).
    An object is its list of own properties in enumeration order. *)
Inductive value : Type :=
| VUndefined
| VNull
| VBool (b : bool)
| VNum (repr : string)
| VStr (s : string)
| VArr (items : list value)
| VObj (props : list (string * value)).

(** ToBoolean *)
Definition truthy (v : value) : bool :=
  match v with
  | VUndefined | VNull => false
  | VBool b => b
  | VNum repr => negb (String.eqb repr "0" || String.eqb repr "NaN")
  | VStr s => negb (String.eqb s "")
  | VArr _ | VObj _ => true
  end.

(** [a || b] *)
Definition or_else (a b : value) : value := if truthy a then a else b.

Fixpoint lookup_prop (key : string) (props : list (string * value)) : value :=
  match props with
  | [] => VUndefined
  | (k, v) :: rest => if String.eqb k key then v else lookup_prop key rest
  end.

(** ** Errors *)

Inductive ErrorClass := ClassError | ClassTypeError | ClassSyntaxError | ClassDOMException.

Record JsError := mkError {
  err_class : ErrorClass;
  err_name : string;
  err_message : string
}.

(** [new Error(message)] *)
Definition new_Error (message : string) : JsError := mkError ClassError "Error" message.

(** The rejection of a [fetch] whose signal is aborted. *)
Definition AbortError : JsError :=
  mkError ClassDOMException "AbortError" "signal is aborted without reason".

(** [error instanceof TypeError] *)
Definition is_TypeError (e : JsError) : bool :=
  match err_class e with ClassTypeError => true | _ => false end.

(** [`${error}`] *)
Definition error_toString (e : JsError) : string :=
  if String.eqb (err_message e) "" then err_name e
  else if String.eqb (err_name e) "" then err_message e
  else err_name e +:+ ": " +:+ err_message e.

(** A computation that may throw. *)
Abbreviation throws A := (JsError + A)%type.

Definition is_thrown {A} (r : throws A) : bool :=
  match r with inl _ => true | inr _ => false end.

(** [o.key] for the property names the service reads ([success],
    [textResponse], [audioResponse], [answer], [response]); none of them is
    inherited or built in, so only objects can hold them.  Reading a
    property of [null] or [undefined] throws. *)
Definition get (o : value) (key : string) : throws value :=
  match o with
  | VUndefined =>
      inl (mkError ClassTypeError "TypeError"
             ("Cannot read properties of undefined (reading '" +:+ key +:+ "')"))
  | VNull =>
      inl (mkError ClassTypeError "TypeError"
             ("Cannot read properties of null (reading '" +:+ key +:+ "')"))
  | VObj props => inr (lookup_prop key props)
  | VBool _ | VNum _ | VStr _ | VArr _ => inr VUndefined
  end.

(** ** JSON.stringify *)

Definition hex_digit (n : nat) : string :=
  match n with
  | 0 => "0" | 1 => "1" | 2 => "2" | 3 => "3" | 4 => "4" | 5 => "5" | 6 => "6"
  | 7 => "7" | 8 => "8" | 9 => "9" | 10 => "a" | 11 => "b" | 12 => "c"
  | 13 => "d" | 14 => "e" | _ => "f"
  end.

Definition quote_char (c : ascii) : string :=
  let n := nat_of_ascii c in
  if n =? 34 then "\" +:+ dquote
  else if n =? 92 then "\\"
  else if n =? 8 then "\b"
  else if n =? 9 then "\t"
  else if n =? 10 then "\n"
  else if n =? 12 then "\f"
  else if n =? 13 then "\r"
  else if n <? 32 then "\u00" +:+ hex_digit (n / 16) +:+ hex_digit (n mod 16)
  else String c EmptyString.

Fixpoint quote_chars (s : string) : string :=
  match s with
  | EmptyString => EmptyString
  | String c s' => quote_char c +:+ quote_chars s'
  end.

(** QuoteJSONString *)
Definition quote (s : string) : string := dquote +:+ quote_chars s +:+ dquote.

Fixpoint join (sep : string) (parts : list string) : string :=
  match parts with
  | [] => ""
  | [p] => p
  | p :: rest => p +:+ sep +:+ join sep rest
  end.

(** SerializeJSONProperty: [None] is [undefined] (the property is left out
    of an object, and becomes [null] in an array). *)
Fixpoint serialize (v : value) : option string :=
  match v with
  | VUndefined => None
  | VNull => Some "null"
  | VBool true => Some "true"
  | VBool false => Some "false"
  | VNum repr =>
      if String.eqb repr "Infinity" || String.eqb repr "-Infinity" || String.eqb repr "NaN"
      then Some "null" else Some repr
  | VStr s => Some (quote s)
  | VArr items =>
      Some ("[" +:+ join "," (map (λ x, default "null" (serialize x)) items) +:+ "]")
  | VObj props =>
      Some ("{" +:+
            join "," (omap (λ kv, (λ s, quote (fst kv) +:+ ":" +:+ s) <$> serialize (snd kv)) props)
            +:+ "}")
  end.

Definition JSON_stringify (v : value) : value :=
  match serialize v with
  | Some s => VStr s
  | None => VUndefined
  end.

(** ** The platform

    [JSON.parse] takes any value (it converts its argument to a string
    first) and throws a [SyntaxError] on malformed text.  [atob] returns the
    decoded binary string, or throws ([None]) on text that is not base64. *)
Record Platform := {
  userAgent : string;
  JSON_parse : value → throws value;
  atob : string → option string
}.

(** ** Blobs, requests and the events a call produces *)

Record Blob := mkBlob {
  blob_content : list nat;
  blob_type : string
}.

(** One [FormData] entry: field name, blob, file name. *)
Record FormEntry := mkEntry {
  entry_name : string;
  entry_blob : Blob;
  entry_filename : string
}.

(** The arguments of one [fetch] call; [req_signal] is the controller whose
    signal is passed. *)
Record Request := mkRequest {
  req_url : string;
  req_method : string;
  req_body : list FormEntry;
  req_signal : nat;
  req_mode : string;
  req_headers : list (string * string)
}.

Inductive Event :=
| EvBackoff (ms : N)
| EvFetch (req : Request).

(** A received response.  [json_] and [text_] are what [response.json()]
    and [responseClone.text()] settle to.  Both reads are awaited outside
    the race with the timeout; a read that never settles is not modelled,
    so what is proved of the outcome of a call is proved of a call whose
    body reads settle. *)
Record Response := mkResponse {
  status : N;
  statusText : string;
  json_ : throws value;
  text_ : throws string
}.

(** [response.ok] *)
Definition ok (r : Response) : bool := (200 <=? status r)%N && (status r <=? 299)%N.

(** What the network does with the [fetch] of one attempt while the signal
    is not aborted: reject, stay pending beyond [TIMEOUT_MS], or answer. *)
Inductive FetchOutcome :=
| FetchRejects (e : JsError)
| FetchPending
| FetchResolves (r : Response).

Abbreviation Network := (nat → FetchOutcome).

(** ** State

    [abortController] is the instance field.  [signals] holds one flag per
    [AbortController] created so far (a controller is its index; the flag
    is [signal.aborted]).  [object_urls] is the blob URL store: entry [i]
    is the blob registered under [blob_url i]. *)
Record State := mkState {
  abortController : option nat;
  signals : list bool;
  object_urls : list Blob
}.

Definition new_service : State := mkState None [] [].

Definition aborted (σ : State) (controller : nat) : bool :=
  match signals σ !! controller with
  | Some flag => flag
  | None => false
  end.

(** [controller.abort()] *)
Definition abort (controller : nat) (σ : State) : State :=
  mkState (abortController σ) (<[controller := true]> (signals σ)) (object_urls σ).

(** [new AbortController()] *)
Definition new_AbortController (σ : State) : nat * State :=
  (length (signals σ),
   mkState (abortController σ) (signals σ ++ [false]) (object_urls σ)).

Definition blob_url (i : nat) : string := "blob:" +:+ pretty i.

(** [URL.createObjectURL(blob)]: a URL not handed out before. *)
Definition createObjectURL (blob : Blob) (σ : State) : string * State :=
  (blob_url (length (object_urls σ)),
   mkState (abortController σ) (signals σ) (object_urls σ ++ [blob])).

(** ** The service *)

Definition MAX_RETRIES : nat := 3.
Definition TIMEOUT_MS : N := 20000.
Definition RETRY_DELAY_MS : N := 1000.

Definition NO_ANSWER : string := "Vastausta ei saatu.".

Definition mobile_keywords : list string :=
  ["Android"; "webOS"; "iPhone"; "iPad"; "iPod"; "BlackBerry"; "IEMobile"; "Opera Mini"].

(** [/Android|webOS|iPhone|iPad|iPod|BlackBerry|IEMobile|Opera Mini/i.test(navigator.userAgent)] *)
Definition isMobile (P : Platform) : bool :=
  existsb (λ k, includes (lower k) (lower (userAgent P))) mobile_keywords.

(** [s.replace(/^data:audio\/[^;]+;base64,/, '')] *)
Definition strip_data_url_prefix (s : string) : string :=
  match strip_prefix "data:audio/" s with
  | None => s
  | Some rest =>
      let '(subtype, rest') := span_not_semicolon rest in
      if String.eqb subtype "" then s
      else match strip_prefix ";base64," rest' with
           | Some payload => payload
           | None => s
           end
  end.

(** The first statements of [sendAudioToWebhook]: abort the previous
    controller, install a new one. *)
Definition begin_send (σ : State) : nat * State :=
  let σ1 := match abortController σ with
            | Some previous => abort previous σ
            | None => σ
            end in
  let '(controller, σ2) := new_AbortController σ1 in
  (controller, mkState (Some controller) (signals σ2) (object_urls σ2)).

(** [cleanup()] *)
Definition cleanup (σ : State) : State :=
  match abortController σ with
  | Some controller =>
      let σ1 := abort controller σ in
      mkState None (signals σ1) (object_urls σ1)
  | None => σ
  end.

(** [processedBlob] *)
Definition processBlob (P : Platform) (audioBlob : Blob) : Blob :=
  if isMobile P && negb (includes "webm" (blob_type audioBlob))
  then mkBlob (blob_content audioBlob) "audio/webm"
  else audioBlob.

(** The [fetch] call of every attempt. *)
Definition upload_request (processedBlob : Blob) (webhookUrl : string) (controller : nat)
  : Request :=
  mkRequest webhookUrl "POST" [mkEntry "data0" processedBlob "speech.webm"] controller
            "cors" [("Accept", "audio/mpeg,application/json,*/*")].

(** [await Promise.race([fetchPromise, timeoutPromise])]: a fetch still
    pending after [TIMEOUT_MS] loses the race to the timeout; a fetch whose
    signal is aborted rejects with an [AbortError]. *)
Definition race_settles (o : FetchOutcome) : throws Response :=
  match o with
  | FetchRejects e => inl e
  | FetchPending => inl (new_Error "Request timeout")
  | FetchResolves r => inr r
  end.

Definition race (σ : State) (controller : nat) (o : FetchOutcome) : throws Response :=
  if aborted σ controller then inl AbortError else race_settles o.

(** Reading the body: [response.json()], else [responseClone.text()] and
    [JSON.parse], else a wrapper object. *)
Definition read_body (P : Platform) (response : Response) : throws value :=
  match json_ response with
  | inr data => inr data
  | inl error =>
      match text_ response with
      | inr textData =>
          match JSON_parse P (VStr textData) with
          | inr data => inr data
          | inl _ => inr (VObj [("textResponse", VStr textData)])
          end
      | inl textError =>
          inl (new_Error ("Failed to parse response: " +:+ error_toString error))
      end
  end.

(** [o.answer || o.response || 'Vastausta ei saatu.'] *)
Definition answer_of (o : value) : throws value :=
  match get o "answer" with
  | inl e => inl e
  | inr answer =>
      if truthy answer then inr answer
      else match get o "response" with
           | inl e => inl e
           | inr response => inr (or_else response (VStr NO_ANSWER))
           end
  end.

Inductive Branch := StructuredBranch | LegacyBranch.

(** [data.success && data.textResponse && data.audioResponse] *)
Definition branch (data : value) : throws Branch :=
  match get data "success" with
  | inl e => inl e
  | inr success =>
      if negb (truthy success) then inr LegacyBranch
      else match get data "textResponse" with
           | inl e => inl e
           | inr textResponse =>
               if negb (truthy textResponse) then inr LegacyBranch
               else match get data "audioResponse" with
                    | inl e => inl e
                    | inr audioResponse =>
                        if truthy audioResponse then inr StructuredBranch
                        else inr LegacyBranch
                    end
           end
  end.

(** [textData]: the parsed [textResponse], or [{ answer: data.textResponse }]. *)
Definition text_data (P : Platform) (textResponse : value) : value :=
  match JSON_parse P textResponse with
  | inr parsed => parsed
  | inl _ => VObj [("answer", textResponse)]
  end.

(** The body of [if (data.success && ...)]. *)
Definition structured (P : Platform) (textResponse audioResponse : value) (σ : State)
  : throws value * State :=
  let textData := text_data P textResponse in
  match audioResponse with
  | VStr audio =>
      let base64Data := strip_data_url_prefix audio in
      match atob P base64Data with
      | Some binaryString =>
          let bytes := char_codes binaryString in
          let audioBlob := mkBlob bytes "audio/mpeg" in
          let '(audioUrl, σ') := createObjectURL audioBlob σ in
          match answer_of textData with
          | inr text =>
              (inr (JSON_stringify (VObj [("text", text); ("audioUrl", VStr audioUrl)])), σ')
          | inl _ => (answer_of textData, σ')
          end
      | None => (answer_of textData, σ)
      end
  | _ => (answer_of textData, σ)
  end.

(** What one attempt returns or throws once the body has been read. *)
Definition normalize (P : Platform) (data : value) (σ : State) : throws value * State :=
  match branch data with
  | inl e => (inl e, σ)
  | inr StructuredBranch =>
      match get data "textResponse", get data "audioResponse" with
      | inr textResponse, inr audioResponse => structured P textResponse audioResponse σ
      | inl e, _ | _, inl e => (inl e, σ)
      end
  | inr LegacyBranch => (answer_of data, σ)
  end.

(** The [try] block from the point where the race has settled. *)
Definition after_race (P : Platform) (raced : throws Response) (σ : State)
  : throws value * State :=
  match raced with
  | inl e => (inl e, σ)
  | inr response =>
      if negb (ok response)
      then (inl (new_Error ("Palvelin vastasi virheellä: " +:+ pretty (status response)
                            +:+ " " +:+ statusText response)), σ)
      else match read_body P response with
           | inl e => (inl e, σ)
           | inr data => normalize P data σ
           end
  end.

(** The error thrown from the [catch] block on the last retry. *)
Definition final_error (error : JsError) : JsError :=
  if String.eqb (err_name error) "AbortError" then new_Error "Pyyntö keskeytetty"
  else if is_TypeError error && includes "Failed to fetch" (err_message error)
       then new_Error "Verkkoyhteydessä on ongelma. Tarkista internetyhteys."
       else new_Error "Palvelinyhteys epäonnistui".

Inductive Outcome :=
| Resolved (v : value)
| Rejected (e : JsError)
| OutOfFuel.

Abbreviation Run := (Outcome * list Event * State)%type.

Definition prepend (events : list Event) (r : Run) : Run :=
  let '(o, tr, σ) := r in (o, events ++ tr, σ).

(** The end of one iteration: [return], or the [catch] block. *)
Definition settle (continue : option JsError → State → Run) (retries : nat)
    (result : throws value * State) : Run :=
  match result with
  | (inr v, σ) => (Resolved v, [], σ)
  | (inl error, σ) =>
      if retries =? MAX_RETRIES then (Rejected (final_error error), [], σ)
      else continue (Some error) σ
  end.

(** [this.RETRY_DELAY_MS * Math.pow(2, retries - 1)], which the loop
    evaluates only when [retries > 0]. *)
Definition backoff_delay (retries : nat) : N :=
  (RETRY_DELAY_MS * 2 ^ N.of_nat (retries - 1))%N.

(** The wait at the head of a retry. *)
Definition backoff (retries : nat) : list Event :=
  if 0 <? retries then [EvBackoff (backoff_delay retries)] else [].

(** The [while] loop and the statements after it.  [fuel] bounds the number
    of iterations. *)
Fixpoint send_loop (P : Platform) (net : Network) (req : Request)
    (fuel retries : nat) (lastError : option JsError) (σ : State) : Run :=
  match fuel with
  | 0 => (OutOfFuel, [], σ)
  | S fuel' =>
      if retries <=? MAX_RETRIES then
        prepend (backoff retries ++ [EvFetch req])
          (settle (send_loop P net req fuel' (S retries)) retries
             (after_race P (race σ (req_signal req) (net retries)) σ))
      else
        match lastError with
        | Some e => (Rejected e, [], σ)
        | None => (Rejected (new_Error "Unexpected error in webhook service"), [], σ)
        end
  end.

Definition sendAudioToWebhook (P : Platform) (net : Network)
    (audioBlob : Blob) (webhookUrl : string) (σ : State) : Run :=
  let '(controller, σ1) := begin_send σ in
  let processedBlob := processBlob P audioBlob in
  send_loop P net (upload_request processedBlob webhookUrl controller)
    (S (S MAX_RETRIES)) 0 None σ1.

(** The rest of a call that is waiting for the race of attempt [retries]
    when the race settles with [raced]. *)
Definition resume_after_race (P : Platform) (net : Network) (req : Request)
    (fuel retries : nat) (raced : throws Response) (σ : State) : Run :=
  settle (send_loop P net req fuel (S retries)) retries (after_race P raced σ).

(** ** Reading a run *)

Definition outcome (r : Run) : Outcome := r.1.1.
Definition trace (r : Run) : list Event := r.1.2.
Definition final_state (r : Run) : State := r.2.

(** The backoff delays of a trace, in order. *)
Definition delays (tr : list Event) : list N :=
  omap (λ ev, match ev with EvBackoff ms => Some ms | EvFetch _ => None end) tr.

(** The requests of a trace, in order. *)
Definition requests (tr : list Event) : list Request :=
  omap (λ ev, match ev with EvFetch req => Some req | EvBackoff _ => None end) tr.

(** The events of attempts [first], ..., [first + count - 1] when each of
    them is made. *)
Definition rounds (req : Request) (first count : nat) : list Event :=
  flat_map (λ i, backoff i ++ [EvFetch req]) (seq first count).

(** The attempt that meets network outcome [o] throws. *)
Definition attempt_fails (P : Platform) (o : FetchOutcome) : Prop :=
  ∀ σ, is_thrown (after_race P (race_settles o) σ).1 = true.

(** The three errors a call can end with on its last retry. *)
Definition terminal_errors : list JsError :=
  [new_Error "Pyyntö keskeytetty";
   new_Error "Verkkoyhteydessä on ongelma. Tarkista internetyhteys.";
   new_Error "Palvelinyhteys epäonnistui"].

(** The error a cancelled call ends with. *)
Definition CANCELLED : JsError := new_Error "Pyyntö keskeytetty".

(** The type every decoded audio blob is given. *)
Definition is_mpeg (blob : Blob) : Prop := blob_type blob = "audio/mpeg".

(** ** The branch condition as the specification words it

    "If reply has success === true and both textResponsePayload and
    audioResponsePayload are present": [success] is the boolean [true] and
    the two payload properties ([textResponse] and [audioResponse] in the
    code) are defined. *)
Definition spec_structured_condition (data : value) : Prop :=
  get data "success" = inr (VBool true) ∧
  (∃ textResponse, get data "textResponse" = inr textResponse ∧ textResponse ≠ VUndefined) ∧
  (∃ audioResponse, get data "audioResponse" = inr audioResponse ∧ audioResponse ≠ VUndefined).

(** ** A concrete platform for the examples *)

Definition base64_value (c : ascii) : option nat :=
  let n := nat_of_ascii c in
  if (65 <=? n) && (n <=? 90) then Some (n - 65)
  else if (97 <=? n) && (n <=? 122) then Some (n - 71)
  else if (48 <=? n) && (n <=? 57) then Some (n + 4)
  else if n =? 43 then Some 62
  else if n =? 47 then Some 63
  else None.

Definition is_ascii_whitespace (c : ascii) : bool :=
  let n := nat_of_ascii c in
  (n =? 9) || (n =? 10) || (n =? 12) || (n =? 13) || (n =? 32).

Fixpoint without_whitespace (s : string) : list ascii :=
  match s with
  | EmptyString => []
  | String c s' =>
      if is_ascii_whitespace c then without_whitespace s' else c :: without_whitespace s'
  end.

Definition drop_last_equals (l : list ascii) : list ascii :=
  match reverse l with
  | c :: rest => if Ascii.eqb c "="%char then reverse rest else l
  | [] => l
  end.

Fixpoint decode_sextets (l : list nat) : list nat :=
  match l with
  | a :: b :: c :: d :: rest =>
      (a * 4 + b / 16) :: ((b mod 16) * 16 + c / 4) :: ((c mod 4) * 64 + d)
      :: decode_sextets rest
  | [a; b; c] => [a * 4 + b / 16; (b mod 16) * 16 + c / 4]
  | [a; b] => [a * 4 + b / 16]
  | _ => []
  end.

Fixpoint string_of_codes (l : list nat) : string :=
  match l with
  | [] => EmptyString
  | n :: rest => String (ascii_of_nat n) (string_of_codes rest)
  end.

(** The forgiving-base64 decode of the HTML standard, which [atob] runs. *)
Definition forgiving_base64_decode (s : string) : option string :=
  let data := without_whitespace s in
  let data := if length data mod 4 =? 0 then drop_last_equals (drop_last_equals data)
              else data in
  if length data mod 4 =? 1 then None
  else match mapM base64_value data with
       | Some sextets => Some (string_of_codes (decode_sextets sextets))
       | None => None
       end.

(** [JSON.parse] as far as the examples need it: the JSON texts listed
    here parse to the values given; the other texts the examples pass to it
    (["Hei"], ["Service OK"]) are not JSON and make it throw. *)
Definition demo_JSON_texts : list (string * value) :=
  [("null", VNull); ("true", VBool true); ("false", VBool false);
   ("{}", VObj []); ("[]", VArr [])].

Fixpoint assoc (key : string) (table : list (string * value)) : option value :=
  match table with
  | [] => None
  | (k, v) :: rest => if String.eqb k key then Some v else assoc key rest
  end.

Definition demo_JSON_parse (v : value) : throws value :=
  match v with
  | VStr s =>
      match assoc s demo_JSON_texts with
      | Some parsed => inr parsed
      | None => inl (mkError ClassSyntaxError "SyntaxError" "Unexpected token")
      end
  | _ => inl (mkError ClassSyntaxError "SyntaxError" "Unexpected token")
  end.

Definition desktop : Platform :=
  {| userAgent := "Mozilla/5.0 (X11; Linux x86_64) AppleWebKit/537.36 Chrome/120.0 Safari/537.36";
     JSON_parse := demo_JSON_parse;
     atob := forgiving_base64_decode |}.

Definition phone : Platform :=
  {| userAgent := "Mozilla/5.0 (iPhone; CPU iPhone OS 17_0 like Mac OS X) AppleWebKit/605.1.15 Mobile/15E148";
     JSON_parse := demo_JSON_parse;
     atob := forgiving_base64_decode |}.

(** ** Scenarios used in the examples *)

Definition recording : Blob := mkBlob [26; 69; 223; 163] "audio/mp4".

Definition hook : string := "https://n8n.artbachmann.eu/webhook/my-memory".

Definition json_reply (data : value) : Response :=
  mkResponse 200 "OK" (inr data) (inr (default "" (serialize data))).

Definition server_error : Response :=
  mkResponse 500 "Internal Server Error"
    (inr (VObj [("message", VStr "Workflow failed")]))
    (inr (default "" (serialize (VObj [("message", VStr "Workflow failed")])))).

(** A 2xx response with a plain-text body. *)
Definition text_reply (text : string) : Response :=
  mkResponse 200 "OK"
    (inl (mkError ClassSyntaxError "SyntaxError" "Unexpected token")) (inr text).

(** A 2xx response whose body stream broke: neither read succeeds. *)
Definition broken_body : Response :=
  mkResponse 200 "OK"
    (inl (mkError ClassTypeError "TypeError" "network error"))
    (inl (mkError ClassTypeError "TypeError" "network error")).

(** A response whose headers arrived but whose body was still being
    received when the fetch was aborted: both body reads reject. *)
Definition interrupted_body : Response :=
  mkResponse 200 "OK" (inl AbortError) (inl AbortError).

(** A structured reply: spoken text with its audio, here the three bytes
    of ["Hei"] behind a [wav] data URL prefix. *)
Definition spoken_reply : value :=
  VObj [("success", VBool true); ("textResponse", VStr "Hei");
        ("audioResponse", VStr "data:audio/wav;base64,SGVp")].

(** One instance on which two calls have been started. *)
Definition superseded_state : State := (begin_send (begin_send new_service).2).2.

(** ** The caller: [stopRecordingAndSend] of [useConversation]

    The hook posts the recording through the service and shows the reply.
    Its collaborators (audio player, microphone, conversation state,
    message list, toast) are not modelled: each call to one of them is an
    [Action] of the run, in program order. *)

(** The entries of [Translations] that [stopRecordingAndSend] reads. *)
Record Texts := {
  stopRecording : string;
  recordingFailed : string;
  processingAudio : string;
  sendingToServer : string;
  processingResponse : string;
  playingAudio : string;
  readyForNext : string;
  voiceError : string;
  unknownError : string;
  tryAgain : string
}.

Inductive Language := fi | et | en.

(** [translations], restricted to those entries. *)
Definition translations (language : Language) : Texts :=
  match language with
  | fi =>
      {| stopRecording := "Pysäytän nauhoituksen...";
         recordingFailed := "Äänitallennus epäonnistui - ei ääntä havaittu";
         processingAudio := "Ääniviestin sisältö käsitellään...";
         sendingToServer := "Lähetän palvelimelle...";
         processingResponse := "Käsittelen vastausta...";
         playingAudio := "Toistan äänivastauksen...";
         readyForNext := "Valmis seuraavaan kysymykseen!";
         voiceError := "Virhe äänikäskyssä";
         unknownError := "Tuntematon virhe";
         tryAgain := "Yritä uudelleen" |}
  | et =>
      {| stopRecording := "Peatan salvestamise...";
         recordingFailed := "Helisalvestus ebaõnnestus - heli ei tuvastatud";
         processingAudio := "Helistsõnumi sisu töödeldakse...";
         sendingToServer := "Saadan serverisse...";
         processingResponse := "Töötlen vastust...";
         playingAudio := "Mängin helivastust...";
         readyForNext := "Valmis järgmiseks küsimuseks!";
         voiceError := "Viga häälkäskluses";
         unknownError := "Tundmatu viga";
         tryAgain := "Proovi uuesti" |}
  | en =>
      {| stopRecording := "Stopping recording...";
         recordingFailed := "Audio recording failed - no audio detected";
         processingAudio := "Audio message content being processed...";
         sendingToServer := "Sending to server...";
         processingResponse := "Processing response...";
         playingAudio := "Playing audio response...";
         readyForNext := "Ready for next question!";
         voiceError := "Voice command error";
         unknownError := "Unknown error";
         tryAgain := "Try again" |}
  end.

Definition getTranslations (language : Language) : Texts := translations language.

Inductive Status := Idle | Greeting | Recording | Sending | Waiting | Playing.

Record VoiceState := mkVoiceState {
  voice_status : Status;
  isRecording : bool;
  isPlaying : bool;
  voice_error : option string
}.

(** The argument of [state.setVoiceState]: an updater
    [prev => ({ ...prev, ... })] that overwrites the given fields, or a whole
    new state. *)
Inductive VoiceUpdate :=
| Patch (new_status : option Status) (new_isRecording new_isPlaying : option bool)
| Replace (new_state : VoiceState).

Inductive Action :=
| StopAudio
| SetVoiceState (update : VoiceUpdate)
| SetIsWaitingForClick (waiting : bool)
| AddSystemMessage (content : string)
| AddUserMessage (content : string)
| AddAssistantMessage (content audioUrl : value)
| PlayAudio (url : value)
| StopRecording
| MicrophoneCleanup
| Toast (title description variant : string).

(** What a [catch] block of the hook receives: an [Error] object or any
    other value. *)
Inductive Thrown :=
| ThrowError (e : JsError)
| ThrowValue (v : value).

(** [error instanceof Error ? error.message : fallback] *)
Definition message_or (fallback : string) (error : Thrown) : string :=
  match error with
  | ThrowError e => err_message e
  | ThrowValue _ => fallback
  end.

(** How [Promise.race([recordingPromise, timeoutPromise])] settles:
    [microphone.stopRecording()] resolves with a blob ([None] for a missing
    one), or it rejects or is still pending after 5000 ms. *)
Inductive RecordingOutcome :=
| RecordingStops (audioBlob : option Blob)
| RecordingFails.

(** What the collaborators do during one run.  [webhook_timeout] says that
    the 20000 ms timer of the hook fires before the service call settles;
    [playAudio url] is the rejection of [audioPlayer.playAudio(url)], if
    any. *)
Record Session := {
  recorded : RecordingOutcome;
  network : Network;
  webhook_timeout : bool;
  playAudio : value → option Thrown
}.

(** Calling [responseData.startsWith] when the property is undefined. *)
Definition startsWith_missing : JsError :=
  mkError ClassTypeError "TypeError" "responseData.startsWith is not a function".

(** The [catch (e)] block around the display of the reply. *)
Definition show_unparsed (T : Texts) (S : Session) (responseData : value)
  : option Thrown * list Action :=
  match responseData with
  | VStr s =>
      if starts_with "blob:" s
      then (playAudio S responseData,
            [AddAssistantMessage (VStr "Äänivastaus") responseData;
             AddSystemMessage (playingAudio T);
             PlayAudio responseData])
      else (None, [AddAssistantMessage responseData VUndefined])
  | _ =>
      match get responseData "startsWith" with
      | inl e => (Some (ThrowError e), [])
      | inr _ => (Some (ThrowError startsWith_missing), [])
      end
  end.

(** The display of the reply: [JSON.parse(responseData)], then text with
    audio, text alone, or the [catch] block.  [parsedResponse.text] and
    [parsedResponse.audioUrl] are read with [get]: no value has an inherited
    property of either name. *)
Definition showResponse (T : Texts) (P : Platform) (S : Session) (responseData : value)
  : option Thrown * list Action :=
  match JSON_parse P responseData with
  | inl _ => show_unparsed T S responseData
  | inr parsedResponse =>
      match get parsedResponse "text" with
      | inl _ => show_unparsed T S responseData
      | inr text =>
          let audioUrl := match get parsedResponse "audioUrl" with
                          | inr audioUrl => audioUrl
                          | inl _ => VUndefined
                          end in
          if truthy text && truthy audioUrl then
            let shown := [AddAssistantMessage text audioUrl;
                          AddSystemMessage (playingAudio T);
                          PlayAudio audioUrl] in
            match playAudio S audioUrl with
            | None => (None, shown)
            | Some _ =>
                let '(thrown, more) := show_unparsed T S responseData in
                (thrown, shown ++ more)
            end
          else (None, [AddAssistantMessage (or_else text responseData) VUndefined])
      end
  end.

(** The outer [catch (error)] block. *)
Definition failure_report (T : Texts) (error : Thrown) : list Action :=
  [MicrophoneCleanup;
   SetVoiceState (Replace (mkVoiceState Idle false false
                             (Some (message_or (unknownError T) error))));
   Toast (voiceError T) (message_or (tryAgain T) error) "destructive";
   AddSystemMessage (voiceError T +:+ ": " +:+ message_or (unknownError T) error)].

(** The last statements of the [try] block. *)
Definition success_report (T : Texts) : list Action :=
  [SetVoiceState (Replace (mkVoiceState Idle false false None));
   AddSystemMessage (readyForNext T)].

(** What the hook receives from
    [Promise.race([webhookPromise, webhookTimeoutPromise])]. *)
Definition webhook_race (S : Session) (run : Run) : Thrown + value :=
  if webhook_timeout S then inl (ThrowError (new_Error "Webhook timeout"))
  else match outcome run with
       | Resolved responseData => inr responseData
       | Rejected e => inl (ThrowError e)
       | OutOfFuel => inl (ThrowError (new_Error "Webhook timeout"))
       end.

(** The statements before [microphone.stopRecording()] settles. *)
Definition stopping (T : Texts) : list Action :=
  [StopAudio;
   SetVoiceState (Patch (Some Sending) (Some false) None);
   SetIsWaitingForClick false;
   AddSystemMessage (stopRecording T);
   StopRecording].

(** The statements between the check of the recording and the call of the
    service. *)
Definition sending (T : Texts) : list Action :=
  [AddUserMessage (processingAudio T);
   SetVoiceState (Patch (Some Waiting) None None);
   AddSystemMessage (sendingToServer T)].

(** The statements between the call of the service and the display. *)
Definition showing (T : Texts) : list Action :=
  [SetVoiceState (Patch (Some Playing) None (Some true));
   AddSystemMessage (processingResponse T)].

(** [stopRecordingAndSend]: the actions of the run, the run of the service
    call if one was made, and the state of the service afterwards. *)
Definition stopRecordingAndSend (T : Texts) (P : Platform) (S : Session)
    (webhookUrl : string) (σ : State) : list Action * option Run * State :=
  let failed := ThrowError (new_Error (recordingFailed T)) in
  match recorded S with
  | RecordingFails =>
      (stopping T ++ [MicrophoneCleanup] ++ failure_report T failed, None, σ)
  | RecordingStops None => (stopping T ++ failure_report T failed, None, σ)
  | RecordingStops (Some audioBlob) =>
      if length (blob_content audioBlob) =? 0
      then (stopping T ++ failure_report T failed, None, σ)
      else
        let run := sendAudioToWebhook P (network S) audioBlob webhookUrl σ in
        match webhook_race S run with
        | inl error =>
            (stopping T ++ sending T ++ failure_report T error, Some run, final_state run)
        | inr responseData =>
            let '(thrown, shown) := showResponse T P S responseData in
            let ending := match thrown with
                          | None => success_report T
                          | Some error => failure_report T error
                          end in
            (stopping T ++ sending T ++ showing T ++ shown ++ ending,
             Some run, final_state run)
        end
  end.

(** The assistant messages of a run, as (content, audioUrl). *)
Definition assistant_messages (actions : list Action) : list (value * value) :=
  omap (λ a, match a with
             | AddAssistantMessage content audioUrl => Some (content, audioUrl)
             | _ => None
             end) actions.

(** The URLs handed to the audio player. *)
Definition played (actions : list Action) : list value :=
  omap (λ a, match a with PlayAudio url => Some url | _ => None end) actions.

(** The messages added for the user's side of the conversation. *)
Definition user_messages (actions : list Action) : list string :=
  omap (λ a, match a with AddUserMessage content => Some content | _ => None end) actions.

(** The toasts of a run, as (title, description, variant). *)
Definition toasts (actions : list Action) : list (string * string * string) :=
  omap (λ a, match a with
             | Toast title description variant => Some (title, description, variant)
             | _ => None
             end) actions.

(** The last argument given to [state.setVoiceState]. *)
Definition last_voice_update (actions : list Action) : option VoiceUpdate :=
  last (omap (λ a, match a with SetVoiceState update => Some update | _ => None end)
          actions).

(** A reply the service reads no property from: neither an object nor
    [null]. *)
Definition not_an_object (data : value) : Prop :=
  match data with
  | VBool _ | VNum _ | VStr _ | VArr _ => True
  | VUndefined | VNull | VObj _ => False
  end.

(** ** More scenarios *)

(** The rejection of a [fetch] that cannot reach the server. *)
Definition failed_to_fetch : JsError :=
  mkError ClassTypeError "TypeError" "Failed to fetch".

(** Three server errors, then no connection. *)
Definition offline_at_last : Network :=
  λ i, if i <? MAX_RETRIES then FetchResolves server_error else FetchRejects failed_to_fetch.

(** A structured reply whose audio decodes and whose text payload is the
    JSON text [null]. *)
Definition mute_reply : value :=
  VObj [("success", VBool true); ("textResponse", VStr "null");
        ("audioResponse", VStr "SGVp")].

(** A reply that reports a failure of the workflow. *)
Definition failure_reply : value :=
  VObj [("success", VBool false); ("error", VStr "No transcript");
        ("response", VStr "Hei")].

(** A structured reply whose audio is a binary object, not a string. *)
Definition buffer_reply : value :=
  VObj [("success", VBool true); ("textResponse", VStr "Hei");
        ("audioResponse", VObj [("type", VStr "Buffer"); ("data", VArr [VNum "72"])])].

(** A legacy reply whose answer is an object, not a text. *)
Definition nested_reply : value :=
  VObj [("answer", VObj [("text", VStr "Hei")])].

(** The pair the service resolves with for [spoken_reply] on a fresh
    instance. *)
Definition spoken_pair : value :=
  VObj [("text", VStr "Hei"); ("audioUrl", VStr "blob:0")].

(** A platform whose [JSON.parse] also reads back the JSON text of
    [spoken_pair]. *)
Definition browser : Platform :=
  {| userAgent := userAgent desktop;
     JSON_parse := λ v, match v, JSON_stringify spoken_pair with
                        | VStr s, VStr text =>
                            if String.eqb s text then inr spoken_pair else demo_JSON_parse v
                        | _, _ => demo_JSON_parse v
                        end;
     atob := forgiving_base64_decode |}.

(** A session with a usable recording, no timeout of the hook and a player
    that plays everything. *)
Definition session (net : Network) : Session :=
  {| recorded := RecordingStops (Some recording);
     network := net;
     webhook_timeout := false;
     playAudio := λ _, None |}.

(** The rejection of [HTMLMediaElement.play()] for a source it cannot
    play. *)
Definition NotSupportedError : JsError :=
  mkError ClassDOMException "NotSupportedError" "The element has no supported sources.".

(** * Properties *)

(** Closes a goal that asks which blobs a step has registered when it has
    registered none. *)
Ltac no_new_urls := exists []; by rewrite app_nil_r.

(** ** The platform functions on examples *)

Example strip_wav_prefix :
  strip_data_url_prefix "data:audio/wav;base64,SGVp" = "SGVp".
Proof. reflexivity. Qed.

Example strip_needs_a_subtype :
  strip_data_url_prefix "data:audio/;base64,SGVp" = "data:audio/;base64,SGVp".
Proof. reflexivity. Qed.

Example strip_only_at_the_start :
  strip_data_url_prefix "x data:audio/wav;base64,SGVp" = "x data:audio/wav;base64,SGVp".
Proof. reflexivity. Qed.

Example strip_leaves_plain_base64 : strip_data_url_prefix "SGVp" = "SGVp".
Proof. reflexivity. Qed.

Example phone_is_mobile : isMobile phone = true ∧ isMobile desktop = false.
Proof. split; reflexivity. Qed.

Example atob_decodes : atob desktop "SGVpIQ==" = Some "Hei!".
Proof. reflexivity. Qed.

Example atob_rejects : atob desktop "!!!" = None ∧ atob desktop "SGVpI" = None.
Proof. split; reflexivity. Qed.

Example stringify_quotes :
  JSON_stringify (VObj [("text", VStr ("a" +:+ dquote +:+ "b")); ("audioUrl", VNull)])
  = VStr ("{" +:+ quote "text" +:+ ":" +:+ dquote +:+ "a\" +:+ dquote +:+ "b" +:+ dquote
          +:+ "," +:+ quote "audioUrl" +:+ ":null}").
Proof. reflexivity. Qed.

(** ** The state *)

Lemma createObjectURL_frame blob σ :
  signals (createObjectURL blob σ).2 = signals σ ∧
  abortController (createObjectURL blob σ).2 = abortController σ.
Proof. done. Qed.

Lemma structured_frame P textResponse audioResponse σ :
  signals (structured P textResponse audioResponse σ).2 = signals σ ∧
  abortController (structured P textResponse audioResponse σ).2 = abortController σ.
Proof.
  unfold structured.
  destruct audioResponse; try done.
  destruct (atob P _); [|done].
  simpl. by destruct (answer_of _).
Qed.

Lemma normalize_frame P data σ :
  signals (normalize P data σ).2 = signals σ ∧
  abortController (normalize P data σ).2 = abortController σ.
Proof.
  unfold normalize.
  destruct (branch data) as [e|[]]; try done.
  destruct (get data "textResponse"); [done|].
  destruct (get data "audioResponse"); [done|].
  apply structured_frame.
Qed.

Lemma after_race_frame P raced σ :
  signals (after_race P raced σ).2 = signals σ ∧
  abortController (after_race P raced σ).2 = abortController σ.
Proof.
  unfold after_race.
  destruct raced as [e|response]; [done|].
  destruct (negb (ok response)); [done|].
  destruct (read_body P response); [done|].
  apply normalize_frame.
Qed.

Lemma normalize_registers P data σ :
  ∃ new, object_urls (normalize P data σ).2 = object_urls σ ++ new ∧ Forall is_mpeg new.
Proof.
  unfold normalize.
  destruct (branch data) as [e|[]]; try no_new_urls.
  destruct (get data "textResponse") as [e|textResponse];
    [no_new_urls|].
  destruct (get data "audioResponse") as [e|audioResponse];
    [no_new_urls|].
  unfold structured.
  destruct audioResponse as [| | | |audio| |]; try no_new_urls.
  destruct (atob P (strip_data_url_prefix audio)) as [binaryString|];
    [|no_new_urls].
  exists [mkBlob (char_codes binaryString) "audio/mpeg"].
  destruct (answer_of (text_data P textResponse)); simpl; (split; [done|by repeat constructor]).
Qed.

Lemma after_race_registers P raced σ :
  ∃ new, object_urls (after_race P raced σ).2 = object_urls σ ++ new ∧ Forall is_mpeg new.
Proof.
  unfold after_race.
  destruct raced as [e|response]; [no_new_urls|].
  destruct (negb (ok response)); [no_new_urls|].
  destruct (read_body P response); [no_new_urls|].
  apply normalize_registers.
Qed.

Lemma aborted_signals σ σ' controller :
  signals σ' = signals σ → aborted σ' controller = aborted σ controller.
Proof. unfold aborted. by intros ->. Qed.

Lemma race_not_aborted σ controller o :
  aborted σ controller = false → race σ controller o = race_settles o.
Proof. unfold race. by intros ->. Qed.

Lemma race_aborted σ controller o :
  aborted σ controller = true → race σ controller o = inl AbortError.
Proof. unfold race. by intros ->. Qed.

(** The controller a call installs is not aborted, whatever the state. *)
Lemma begin_send_fresh σ :
  aborted (begin_send σ).2 (begin_send σ).1 = false.
Proof.
  unfold begin_send, aborted.
  destruct (abortController σ) as [previous|]; simpl.
  - rewrite lookup_app_r; rewrite length_insert; [|done].
    by rewrite Nat.sub_diag.
  - rewrite lookup_app_r; [|done]. by rewrite Nat.sub_diag.
Qed.

Lemma begin_send_installs σ :
  abortController (begin_send σ).2 = Some (begin_send σ).1 ∧
  (begin_send σ).1 < length (signals (begin_send σ).2).
Proof.
  unfold begin_send.
  destruct (abortController σ); simpl; rewrite length_app; simpl; split; (done || lia).
Qed.

Lemma abort_aborts controller σ :
  controller < length (signals σ) → aborted (abort controller σ) controller = true.
Proof.
  intros Hlt. unfold aborted, abort. simpl.
  by rewrite list_lookup_insert_eq.
Qed.

Lemma cleanup_aborts σ controller :
  abortController σ = Some controller →
  controller < length (signals σ) →
  aborted (cleanup σ) controller = true.
Proof.
  intros Hc Hlt. unfold cleanup. rewrite Hc.
  by apply (abort_aborts controller σ).
Qed.


(** ** Values and errors *)

Lemma truthy_false v :
  truthy v = false ↔
  v ∈ [VUndefined; VNull; VBool false; VNum "0"; VNum "NaN"; VStr ""].
Proof.
  rewrite !elem_of_cons, elem_of_nil.
  assert (∀ w : value,
            (w = VUndefined ∨ w = VNull ∨ w = VBool false ∨ w = VNum "0" ∨
             w = VNum "NaN" ∨ w = VStr "" ∨ False) →
            truthy w = false) as Hfalsy.
  { intros w [->|[->|[->|[->|[->|[->|[]]]]]]]; reflexivity. }
  split; [|apply Hfalsy].
  destruct v as [| |b|repr|s|items|props]; simpl; auto 10.
  - destruct b; [discriminate|auto 10].
  - destruct (String.eqb_spec repr "0") as [->|H0]; [auto 10|].
    destruct (String.eqb_spec repr "NaN") as [->|HNaN]; [auto 10|discriminate].
  - destruct (String.eqb_spec s "") as [->|Hs]; [auto 10|discriminate].
  - discriminate.
  - discriminate.
Qed.

Lemma answer_of_defined o :
  o ≠ VNull → o ≠ VUndefined →
  ∃ text, answer_of o = inr text ∧ truthy text = true.
Proof.
  intros Hnull Hundef. unfold answer_of.
  destruct (get o "answer") as [e|answer] eqn:Hanswer; [by destruct o|].
  destruct (truthy answer) eqn:Htruthy; [by exists answer|].
  destruct (get o "response") as [e|response] eqn:Hresponse; [by destruct o|].
  exists (or_else response (VStr NO_ANSWER)). split; [done|].
  unfold or_else. by destruct (truthy response) eqn:Hr.
Qed.

(** A call that has received a response cannot end with the cancelled error
    on its last retry: nothing thrown after that point is an [AbortError]. *)
Lemma get_not_abort o key e : get o key = inl e → err_name e = "TypeError".
Proof. unfold get. destruct o; try done; by intros [= <-]. Qed.

Lemma answer_of_not_abort o e : answer_of o = inl e → err_name e = "TypeError".
Proof.
  unfold answer_of.
  destruct (get o "answer") as [e1|answer] eqn:H1; [intros [= <-]; eauto using get_not_abort|].
  destruct (truthy answer); [done|].
  destruct (get o "response") as [e2|response] eqn:H2; [|done].
  intros [= <-]; eauto using get_not_abort.
Qed.

Lemma normalize_not_abort P data σ e :
  (normalize P data σ).1 = inl e → err_name e = "TypeError".
Proof.
  unfold normalize.
  destruct (branch data) as [e'|[]] eqn:Hbranch; simpl.
  - intros [= <-]. revert Hbranch. unfold branch.
    destruct (get data "success") as [e1|s] eqn:H1; [intros [= <-]; eauto using get_not_abort|].
    destruct (negb (truthy s)); [done|].
    destruct (get data "textResponse") as [e2|t] eqn:H2; [intros [= <-]; eauto using get_not_abort|].
    destruct (negb (truthy t)); [done|].
    destruct (get data "audioResponse") as [e3|a] eqn:H3; [intros [= <-]; eauto using get_not_abort|].
    by destruct (truthy a).
  - destruct (get data "textResponse") as [e2|t] eqn:H2;
      [simpl; intros [= <-]; eauto using get_not_abort|].
    destruct (get data "audioResponse") as [e3|a] eqn:H3;
      [simpl; intros [= <-]; eauto using get_not_abort|].
    unfold structured.
    destruct a; simpl; eauto using answer_of_not_abort.
    destruct (atob P _); simpl; eauto using answer_of_not_abort.
    destruct (answer_of (text_data P t)) eqn:Ha; simpl; [|done].
    intros [= <-]. eauto using answer_of_not_abort.
  - apply answer_of_not_abort.
Qed.

Lemma after_response_not_abort P response σ e :
  (after_race P (inr response) σ).1 = inl e → err_name e ≠ "AbortError".
Proof.
  unfold after_race.
  destruct (negb (ok response)); [by intros [= <-]|].
  unfold read_body.
  destruct (json_ response) as [e1|data].
  - destruct (text_ response) as [e2|text]; [by intros [= <-]|].
    destruct (JSON_parse P (VStr text)); intros H%normalize_not_abort; by rewrite H.
  - intros H%normalize_not_abort. by rewrite H.
Qed.

Lemma final_error_cancelled error :
  final_error error = CANCELLED → err_name error = "AbortError".
Proof.
  unfold final_error.
  destruct (String.eqb_spec (err_name error) "AbortError"); [done|].
  by destruct (_ && _).
Qed.

Lemma final_error_terminal error : final_error error ∈ terminal_errors.
Proof.
  unfold final_error, terminal_errors.
  destruct (String.eqb _ _); [set_solver|].
  destruct (_ && _); set_solver.
Qed.

(** Ways for an attempt to fail. *)
Lemma rejected_fetch_fails P e : attempt_fails P (FetchRejects e).
Proof. by intros σ. Qed.

Lemma pending_fetch_fails P : attempt_fails P FetchPending.
Proof. by intros σ. Qed.

Lemma not_ok_fails P response : ok response = false → attempt_fails P (FetchResolves response).
Proof. intros Hok σ. simpl. by rewrite Hok. Qed.

(** [response.ok] is true up to and including status 299. *)
Lemma ok_299 statusText json text : ok (mkResponse 299 statusText json text) = true.
Proof. done. Qed.

(** ** Traces *)

Lemma prepend_app a b r : prepend a (prepend b r) = prepend (a ++ b) r.
Proof. destruct r as [[o tr] σ]. simpl. by rewrite app_assoc. Qed.

Lemma outcome_prepend a r : outcome (prepend a r) = outcome r.
Proof. by destruct r as [[o tr] σ]. Qed.

Lemma trace_prepend a r : trace (prepend a r) = a ++ trace r.
Proof. by destruct r as [[o tr] σ]. Qed.

Lemma final_state_prepend a r : final_state (prepend a r) = final_state r.
Proof. by destruct r as [[o tr] σ]. Qed.

Lemma rounds_S req first count :
  rounds req first (S count) = (backoff first ++ [EvFetch req]) ++ rounds req (S first) count.
Proof. done. Qed.

Lemma rounds_snoc req first count :
  rounds req first (S count) =
  rounds req first count ++ backoff (first + count) ++ [EvFetch req].
Proof.
  unfold rounds. rewrite seq_S, flat_map_app. simpl. by rewrite app_nil_r.
Qed.

Lemma requests_app tr1 tr2 : requests (tr1 ++ tr2) = requests tr1 ++ requests tr2.
Proof. unfold requests. apply omap_app. Qed.

Lemma requests_backoff retries : requests (backoff retries) = [].
Proof. unfold backoff. by destruct (0 <? retries). Qed.

Lemma backoff_delay_increasing n :
  1 ≤ n → (backoff_delay n < backoff_delay (S n))%N.
Proof.
  intros Hn. unfold backoff_delay, RETRY_DELAY_MS.
  replace (S n - 1) with (S (n - 1)) by lia.
  rewrite Nat2N.inj_succ, N.pow_succ_r'.
  pose proof (N.pow_nonzero 2 (N.of_nat (n - 1)) ltac:(done)).
  lia.
Qed.

(** ** The loop *)

Section loop.

Context (P : Platform) (net : Network) (req : Request).

Lemma send_loop_step fuel retries lastError σ :
  retries ≤ MAX_RETRIES →
  send_loop P net req (S fuel) retries lastError σ =
  prepend (backoff retries ++ [EvFetch req])
    (resume_after_race P net req fuel retries (race σ (req_signal req) (net retries)) σ).
Proof.
  intros Hle. simpl.
  by destruct (Nat.leb_spec retries MAX_RETRIES); [|lia].
Qed.

(** Failed attempts before the last one are followed by the next attempt. *)
Lemma send_loop_skips count :
  ∀ first fuel lastError σ,
    aborted σ (req_signal req) = false →
    first + count ≤ MAX_RETRIES →
    (∀ i, first ≤ i < first + count → attempt_fails P (net i)) →
    ∃ lastError' σ',
      signals σ' = signals σ ∧
      send_loop P net req (count + fuel) first lastError σ =
      prepend (rounds req first count)
        (send_loop P net req fuel (first + count) lastError' σ').
Proof.
  induction count as [|count IH]; intros first fuel lastError σ Hsig Hle Hfail.
  - exists lastError, σ. split; [done|].
    rewrite Nat.add_0_r. simpl. by destruct (send_loop _ _ _ _ _ _ _) as [[? ?] ?].
  - change (S count + fuel) with (S (count + fuel)).
    rewrite send_loop_step by lia.
    rewrite race_not_aborted by done.
    unfold resume_after_race.
    pose proof (Hfail first ltac:(lia) σ) as Hthrown.
    pose proof (after_race_frame P (race_settles (net first)) σ) as [Hsignals _].
    destruct (after_race P (race_settles (net first)) σ) as [[error|v] σ1];
      [|done].
    simpl in Hsignals. simpl.
    destruct (Nat.eqb_spec first MAX_RETRIES) as [->|_]; [lia|].
    destruct (IH (S first) fuel (Some error) σ1) as (lastError' & σ' & Hσ' & Heq).
    + by rewrite (aborted_signals σ σ1).
    + lia.
    + intros i Hi. apply Hfail. lia.
    + exists lastError', σ'. split; [congruence|].
      rewrite Heq, prepend_app, rounds_S.
      by replace (S first + count) with (first + S count) by lia.
Qed.

(** The loop always ends within the fuel [sendAudioToWebhook] gives it. *)
Lemma send_loop_terminates fuel :
  ∀ retries lastError σ,
    S MAX_RETRIES - retries < fuel →
    outcome (send_loop P net req fuel retries lastError σ) ≠ OutOfFuel.
Proof.
  induction fuel as [|fuel IH]; intros retries lastError σ Hfuel; [lia|].
  simpl. destruct (Nat.leb_spec retries MAX_RETRIES) as [Hle|Hgt].
  - rewrite outcome_prepend.
    destruct (after_race P _ σ) as [[error|v] σ']; simpl; [|done].
    destruct (Nat.eqb_spec retries MAX_RETRIES) as [->|Hne]; [done|].
    apply IH. lia.
  - by destruct lastError.
Qed.

(** Every fetch of a call carries the request built before the loop. *)
Lemma send_loop_requests fuel :
  ∀ retries lastError σ,
    Forall (λ r, r = req) (requests (trace (send_loop P net req fuel retries lastError σ))).
Proof.
  induction fuel as [|fuel IH]; intros retries lastError σ; [by constructor|].
  simpl. destruct (retries <=? MAX_RETRIES).
  - rewrite trace_prepend, !requests_app, requests_backoff. simpl.
    constructor; [done|].
    destruct (after_race P _ σ) as [[error|v] σ']; simpl; [|by constructor].
    destruct (retries =? MAX_RETRIES); [by constructor|apply IH].
  - destruct lastError; by constructor.
Qed.

Lemma send_loop_registers fuel :
  ∀ retries lastError σ,
    ∃ new, object_urls (final_state (send_loop P net req fuel retries lastError σ))
           = object_urls σ ++ new ∧ Forall is_mpeg new.
Proof.
  induction fuel as [|fuel IH]; intros retries lastError σ;
    [no_new_urls|].
  simpl. destruct (retries <=? MAX_RETRIES).
  - rewrite final_state_prepend.
    destruct (after_race_registers P (race σ (req_signal req) (net retries)) σ)
      as (new1 & Hnew1 & Hmpeg1).
    destruct (after_race P _ σ) as [[error|v] σ']; simpl in *;
      [|by exists new1].
    destruct (retries =? MAX_RETRIES); [by exists new1|].
    destruct (IH (S retries) (Some error) σ') as (new2 & Hnew2 & Hmpeg2).
    exists (new1 ++ new2). rewrite Hnew2, Hnew1, app_assoc.
    split; [done|]. by apply Forall_app.
  - destruct lastError; no_new_urls.
Qed.

(** Once the controller of a call is aborted, every fetch the call still
    makes rejects at once; the call goes through its remaining retries,
    backoff included, and rejects with the cancelled error on the last. *)
Lemma aborted_call_runs_out count :
  ∀ retries fuel σ,
    aborted σ (req_signal req) = true →
    retries + count = MAX_RETRIES →
    resume_after_race P net req (count + fuel) retries (inl AbortError) σ =
    (Rejected CANCELLED, rounds req (S retries) count, σ).
Proof.
  induction count as [|count IH]; intros retries fuel σ Hab Hsum.
  - unfold resume_after_race. simpl.
    by destruct (Nat.eqb_spec retries MAX_RETRIES); [|lia].
  - unfold resume_after_race.
    cbn [after_race settle].
    destruct (Nat.eqb_spec retries MAX_RETRIES); [lia|].
    change (S count + fuel) with (S (count + fuel)).
    rewrite send_loop_step by lia.
    rewrite race_aborted by done.
    rewrite IH by (done || lia).
    by rewrite rounds_S.
Qed.

(** A call that receives a response on its last retry does not end with
    the cancelled error, whatever the response and whatever becomes of its
    body. *)
Lemma received_response_never_cancelled fuel response σ :
  outcome (resume_after_race P net req fuel MAX_RETRIES (inr response) σ)
  ≠ Rejected CANCELLED.
Proof.
  unfold resume_after_race.
  pose proof (after_response_not_abort P response σ) as Hname.
  destruct (after_race P (inr response) σ) as [[e|v] σ']; simpl in *; [|done].
  intros [= Hcancelled%final_error_cancelled]. by apply (Hname e).
Qed.

End loop.

(** ** Whole calls *)

Lemma send_unfold P net audioBlob webhookUrl σ :
  sendAudioToWebhook P net audioBlob webhookUrl σ =
  send_loop P net
    (upload_request (processBlob P audioBlob) webhookUrl (begin_send σ).1)
    (S (S MAX_RETRIES)) 0 None (begin_send σ).2.
Proof. unfold sendAudioToWebhook. by destruct (begin_send σ). Qed.

Lemma send_terminates P net audioBlob webhookUrl σ :
  outcome (sendAudioToWebhook P net audioBlob webhookUrl σ) ≠ OutOfFuel.
Proof. rewrite send_unfold. apply send_loop_terminates. unfold MAX_RETRIES. lia. Qed.

(** A call whose attempts before attempt [k] all fail makes attempt [k],
    with its own controller still not aborted. *)
Lemma send_reaches P net audioBlob webhookUrl σ k :
  k ≤ MAX_RETRIES →
  (∀ i, i < k → attempt_fails P (net i)) →
  let req := upload_request (processBlob P audioBlob) webhookUrl (begin_send σ).1 in
  ∃ σk,
    aborted σk (req_signal req) = false ∧
    sendAudioToWebhook P net audioBlob webhookUrl σ =
    prepend (rounds req 0 (S k))
      (resume_after_race P net req (S MAX_RETRIES - k) k (race_settles (net k)) σk).
Proof.
  intros Hk Hfail req.
  rewrite send_unfold. fold req.
  replace (S (S MAX_RETRIES)) with (k + S (S MAX_RETRIES - k)) by lia.
  destruct (send_loop_skips P net req k 0 (S (S MAX_RETRIES - k)) None (begin_send σ).2)
    as (lastError' & σk & Hσk & Heq).
  - apply begin_send_fresh.
  - lia.
  - intros i Hi. apply Hfail. lia.
  - exists σk.
    assert (aborted σk (req_signal req) = false) as Hnot.
    { rewrite (aborted_signals (begin_send σ).2 σk) by done. apply begin_send_fresh. }
    split; [done|].
    rewrite Heq. simpl (0 + k).
    rewrite send_loop_step by done.
    rewrite race_not_aborted by done.
    by rewrite prepend_app, rounds_snoc.
Qed.

(** If moreover attempt [k] returns [v], the call resolves with [v]. *)
Lemma send_resolves P net audioBlob webhookUrl σ k v :
  k ≤ MAX_RETRIES →
  (∀ i, i < k → attempt_fails P (net i)) →
  (∀ σ', (after_race P (race_settles (net k)) σ').1 = inr v) →
  let run := sendAudioToWebhook P net audioBlob webhookUrl σ in
  outcome run = Resolved v ∧
  trace run =
    rounds (upload_request (processBlob P audioBlob) webhookUrl (begin_send σ).1) 0 (S k).
Proof.
  intros Hk Hfail Hv run. subst run.
  destruct (send_reaches P net audioBlob webhookUrl σ k Hk Hfail) as (σk & _ & ->).
  rewrite outcome_prepend, trace_prepend.
  unfold resume_after_race.
  specialize (Hv σk).
  destruct (after_race P (race_settles (net k)) σk) as [[e|v'] σ']; simpl in Hv; [done|].
  injection Hv as ->. simpl. by rewrite app_nil_r.
Qed.

Lemma send_resolves_outcome P net audioBlob webhookUrl σ k v :
  k ≤ MAX_RETRIES →
  (∀ i, i < k → attempt_fails P (net i)) →
  (∀ σ', (after_race P (race_settles (net k)) σ').1 = inr v) →
  outcome (sendAudioToWebhook P net audioBlob webhookUrl σ) = Resolved v.
Proof.
  intros Hk Hfail Hv.
  exact (proj1 (send_resolves P net audioBlob webhookUrl σ k v Hk Hfail Hv)).
Qed.

(** ** C1: retries and backoff *)

(** C1.  When every attempt of a call fails, the call makes four attempts
    (the first one and [MAX_RETRIES = 3] retries); before retry [n] it waits
    [RETRY_DELAY_MS * 2^(n-1)] milliseconds, that is 1000, 2000 and 4000;
    and after the fourth attempt it rejects with one of the terminal errors
    without trying again. *)
Theorem exhausted_retries P net audioBlob webhookUrl σ :
  (∀ i, i ≤ MAX_RETRIES → attempt_fails P (net i)) →
  let run := sendAudioToWebhook P net audioBlob webhookUrl σ in
  let req := upload_request (processBlob P audioBlob) webhookUrl (begin_send σ).1 in
  trace run =
    [EvFetch req;
     EvBackoff (backoff_delay 1); EvFetch req;
     EvBackoff (backoff_delay 2); EvFetch req;
     EvBackoff (backoff_delay 3); EvFetch req] ∧
  (∀ n, 1 ≤ n →
     backoff_delay n = (RETRY_DELAY_MS * 2 ^ N.of_nat (n - 1))%N ∧
     (backoff_delay n < backoff_delay (S n))%N) ∧
  delays (trace run) = [1000; 2000; 4000]%N ∧
  length (requests (trace run)) = S MAX_RETRIES ∧
  ∃ e, outcome run = Rejected e ∧ e ∈ terminal_errors.
Proof.
  intros Hfail run req. subst run.
  assert (∀ n, 1 ≤ n →
            backoff_delay n = (RETRY_DELAY_MS * 2 ^ N.of_nat (n - 1))%N ∧
            (backoff_delay n < backoff_delay (S n))%N) as Hdelay.
  { intros n Hn. split; [done|]. by apply backoff_delay_increasing. }
  destruct (send_reaches P net audioBlob webhookUrl σ MAX_RETRIES) as (σk & _ & ->);
    [done|intros; apply Hfail; lia|].
  fold req.
  rewrite outcome_prepend, trace_prepend.
  unfold resume_after_race.
  pose proof (Hfail MAX_RETRIES ltac:(done) σk) as Hthrown.
  destruct (after_race P (race_settles (net MAX_RETRIES)) σk) as [[e|v] σ'];
    [|done].
  simpl. split; [done|]. split; [exact Hdelay|].
  split; [done|]. split; [done|].
  eauto using final_error_terminal.
Qed.

Lemma exhausted_retries_witness :
  let run := sendAudioToWebhook desktop (λ _, FetchResolves server_error)
               recording hook new_service in
  delays (trace run) = [1000; 2000; 4000]%N ∧
  outcome run = Rejected (new_Error "Palvelinyhteys epäonnistui").
Proof.
  pose proof (exhausted_retries desktop (λ _, FetchResolves server_error)
                recording hook new_service) as H.
  destruct H as (_ & _ & Hdelays & _ & e & Hout & _).
  - intros i _. by apply not_ok_fails.
  - split; [exact Hdelays|]. vm_compute. reflexivity.
Defined.

(** ** C2: an abort before the last attempt *)

(** C2 (what the code does).  A call is waiting for the fetch of its first
    attempt when [cleanup()] aborts its controller.  The fetch rejects with
    an [AbortError]; the [catch] block treats it like any other failure on an
    attempt before the last: the call waits 1000 ms, calls [fetch] again,
    waits 2000 ms, calls [fetch], waits 4000 ms, calls [fetch], and only
    then rejects with the cancelled error.  Had the abort come during the
    last attempt ([last]), the call would have rejected with the cancelled
    error at once. *)
Theorem aborted_attempt_is_retried P net audioBlob webhookUrl σ :
  let controller := (begin_send σ).1 in
  let req := upload_request (processBlob P audioBlob) webhookUrl controller in
  let σ' := cleanup (begin_send σ).2 in
  let rest := resume_after_race P net req (S MAX_RETRIES) 0 (race σ' controller (net 0)) σ' in
  let last := resume_after_race P net req 1 MAX_RETRIES
                (race σ' controller (net MAX_RETRIES)) σ' in
  aborted σ' controller = true ∧
  trace rest =
    [EvBackoff 1000; EvFetch req; EvBackoff 2000; EvFetch req; EvBackoff 4000; EvFetch req] ∧
  outcome rest = Rejected CANCELLED ∧
  trace last = [] ∧
  outcome last = Rejected CANCELLED.
Proof.
  intros controller req σ' rest last.
  destruct (begin_send_installs σ) as [Hinst Hlt].
  assert (aborted σ' controller = true) as Hab by by apply cleanup_aborts.
  split; [done|].
  subst rest last. rewrite !race_aborted by done.
  pose proof (aborted_call_runs_out P net req MAX_RETRIES 0 1 σ' Hab eq_refl) as Hrun.
  change (MAX_RETRIES + 1) with (S MAX_RETRIES) in Hrun.
  pose proof (aborted_call_runs_out P net req 0 MAX_RETRIES 1 σ' Hab eq_refl) as Hlast.
  change (0 + 1) with 1 in Hlast.
  by rewrite Hrun, Hlast.
Qed.

(** ** C3: overlapping calls *)

(** One run of the failing path.  Two calls were started on one instance;
    the first was on its last retry and had received the response headers
    when the second began, so its body reads reject.  The first call then
    rejects with the generic server failure, not with the cancelled
    error. *)
Lemma superseded_call_not_cancelled :
  let first := (begin_send new_service).1 in
  let req := upload_request (processBlob desktop recording) hook first in
  let rest := resume_after_race desktop (λ _, FetchPending) req 1 MAX_RETRIES
                (inr interrupted_body) superseded_state in
  aborted superseded_state first = true ∧
  outcome rest = Rejected (new_Error "Palvelinyhteys epäonnistui") ∧
  outcome rest ≠ Rejected CANCELLED.
Proof. vm_compute. repeat split; congruence. Qed.

(** The paths on which the cancellation works.  Starting a second call
    aborts the controller of the first and installs a new one that is not
    aborted.  From then on every fetch of the first call rejects without
    reaching the network, and a first call that was waiting for a fetch
    (attempt [retries]) or for the backoff timer before it rejects with the
    cancelled error: it never resolves.  The fetches of the second call go
    to the network. *)
Theorem second_send_cancels_first P σ0 σ1 :
  let first := (begin_send σ0).1 in
  signals σ1 = signals (begin_send σ0).2 →
  abortController σ1 = Some first →
  let second := (begin_send σ1).1 in
  let σ2 := (begin_send σ1).2 in
  first ≠ second ∧
  abortController σ2 = Some second ∧
  aborted σ2 first = true ∧
  aborted σ2 second = false ∧
  (∀ o, race σ2 second o = race_settles o) ∧
  ∀ net req retries lastError σ,
    req_signal req = first →
    aborted σ first = true →
    retries ≤ MAX_RETRIES →
    (∀ o, race σ first o = inl AbortError) ∧
    outcome (resume_after_race P net req (S MAX_RETRIES - retries) retries
               (race σ first (net retries)) σ) = Rejected CANCELLED ∧
    outcome (send_loop P net req (S (S MAX_RETRIES) - retries) retries lastError σ)
      = Rejected CANCELLED.
Proof.
  intros first Hsig Hctl second σ2.
  destruct (begin_send_installs σ0) as [_ Hlt0]. fold first in Hlt0.
  rewrite <- Hsig in Hlt0.
  assert (aborted σ2 first = true ∧ second = length (signals σ1)) as [Hfirst Hsecond].
  { subst σ2 second. unfold begin_send, aborted. rewrite Hctl. simpl.
    rewrite length_insert. split; [|done].
    rewrite lookup_app_l by (by rewrite length_insert).
    by rewrite list_lookup_insert_eq. }
  assert (aborted σ2 second = false) as Hsecond_live by apply begin_send_fresh.
  split; [lia|].
  split; [apply begin_send_installs|].
  split; [done|]. split; [done|].
  split; [intros o; by apply race_not_aborted|].
  intros net req retries lastError σ Hreq Hab Hretries.
  split; [|split].
  - intros o. by apply race_aborted.
  - rewrite race_aborted by congruence.
    replace (S MAX_RETRIES - retries) with ((MAX_RETRIES - retries) + 1) by lia.
    rewrite aborted_call_runs_out; [done|congruence|lia].
  - replace (S (S MAX_RETRIES) - retries) with (S ((MAX_RETRIES - retries) + 1)) by lia.
    rewrite send_loop_step by done.
    rewrite outcome_prepend, race_aborted by congruence.
    rewrite aborted_call_runs_out; [done|congruence|lia].
Qed.

Lemma second_send_cancels_first_witness :
  aborted superseded_state 0 = true ∧
  aborted superseded_state 1 = false ∧
  outcome (send_loop desktop (λ _, FetchResolves (json_reply (VObj [("answer", VStr "Hei")])))
             (upload_request recording hook 0) 3 2 None superseded_state)
    = Rejected CANCELLED.
Proof.
  destruct (second_send_cancels_first desktop new_service (begin_send new_service).2
              eq_refl eq_refl) as (_ & _ & Hfirst & Hsecond & _ & Hrest).
  split; [exact Hfirst|]. split; [exact Hsecond|].
  destruct (Hrest (λ _, FetchResolves (json_reply (VObj [("answer", VStr "Hei")])))
              (upload_request recording hook 0) 2 None superseded_state
              eq_refl Hfirst ltac:(unfold MAX_RETRIES; lia)) as (_ & _ & Hloop).
  exact Hloop.
Defined.

(** C3 (what the code does).  Two calls are started on one instance, so
    the controller of the first is aborted, while the first call holds a
    response whose body is still arriving: both body reads reject with the
    [AbortError].  The inner [catch (textError)] replaces that error by a
    plain [Error] named ["Error"], which is what the [catch] block of the
    attempt receives.  On an attempt before the last the call goes on, its
    next fetch rejects at once, and it ends with the cancelled error, as
    does a first call that was still waiting for the fetch of its last
    attempt.  On the last attempt the test on the name of the error misses
    the wrapped abort, and the superseded call rejects with the generic
    server failure instead of the cancelled error. *)
Theorem superseded_call_with_response P net audioBlob webhookUrl σ :
  let first := (begin_send σ).1 in
  let req := upload_request (processBlob P audioBlob) webhookUrl first in
  let σ2 := (begin_send (begin_send σ).2).2 in
  let reading retries :=
    resume_after_race P net req (S MAX_RETRIES - retries) retries
      (inr interrupted_body) σ2 in
  let fetching :=
    resume_after_race P net req 1 MAX_RETRIES (race σ2 first (net MAX_RETRIES)) σ2 in
  aborted σ2 first = true ∧
  after_race P (inr interrupted_body) σ2 =
    (inl (new_Error ("Failed to parse response: " +:+ error_toString AbortError)), σ2) ∧
  (∀ retries, retries < MAX_RETRIES → outcome (reading retries) = Rejected CANCELLED) ∧
  outcome fetching = Rejected CANCELLED ∧
  outcome (reading MAX_RETRIES) = Rejected (new_Error "Palvelinyhteys epäonnistui") ∧
  outcome (reading MAX_RETRIES) ≠ Rejected CANCELLED.
Proof.
  intros first req σ2 reading fetching.
  destruct (begin_send_installs σ) as [Hinstalled _]. fold first in Hinstalled.
  destruct (second_send_cancels_first P σ (begin_send σ).2 eq_refl Hinstalled)
    as (_ & _ & Haborted & _ & _ & Hcancelled).
  fold σ2 in Haborted.
  split; [done|]. split; [done|]. split; [|split; [|split]].
  - intros retries Hretries. subst reading. unfold resume_after_race.
    cbn [after_race interrupted_body ok status json_ text_ read_body negb].
    change (negb (ok interrupted_body)) with false. cbv iota.
    cbn [read_body interrupted_body json_ text_ settle].
    destruct (Nat.eqb_spec retries MAX_RETRIES) as [->|_]; [lia|].
    destruct (Hcancelled net req (S retries)
                (Some (new_Error ("Failed to parse response: "
                                  +:+ error_toString AbortError))) σ2
                eq_refl Haborted ltac:(lia)) as (_ & _ & Hloop).
    exact Hloop.
  - subst fetching.
    destruct (Hcancelled net req MAX_RETRIES None σ2 eq_refl Haborted ltac:(lia))
      as (_ & Hresume & _).
    exact Hresume.
  - done.
  - subst reading. cbv beta. apply received_response_never_cancelled.
Qed.

(** ** C4: the legacy reply *)

(** C4 (counterexample).  For the body [{ answer: "hello" }] the call
    resolves with the string ["hello"], not with an object holding that
    text and a null audio reference. *)
Lemma legacy_reply_is_not_a_pair :
  let run := sendAudioToWebhook desktop
               (λ _, FetchResolves (json_reply (VObj [("answer", VStr "hello")])))
               recording hook new_service in
  outcome run = Resolved (VStr "hello") ∧
  outcome run ≠ Resolved (VObj [("text", VStr "hello"); ("audioUrl", VNull)]).
Proof. vm_compute. split; congruence. Qed.

(** C4 (as amended).  When the first attempt that does not fail receives a
    2xx response whose body is an object with no [success] property and a
    non-empty [answer], the call resolves with the value of [answer]
    itself: for an answer text, the bare string. *)
Theorem legacy_answer_is_returned_bare P net audioBlob webhookUrl σ k response props answer :
  k ≤ MAX_RETRIES →
  (∀ i, i < k → attempt_fails P (net i)) →
  net k = FetchResolves response →
  ok response = true →
  json_ response = inr (VObj props) →
  lookup_prop "success" props = VUndefined →
  lookup_prop "answer" props = answer →
  truthy answer = true →
  let run := sendAudioToWebhook P net audioBlob webhookUrl σ in
  outcome run = Resolved answer ∧
  ∀ text, answer = VStr text →
    outcome run ≠ Resolved (VObj [("text", VStr text); ("audioUrl", VNull)]).
Proof.
  intros Hk Hfail Hnet Hok Hjson Hsuccess Hanswer Htruthy run.
  assert (outcome run = Resolved answer) as Hout.
  { apply (send_resolves_outcome P net audioBlob webhookUrl σ k); [done|done|].
    intros σ'. rewrite Hnet. simpl. rewrite Hok. simpl.
    unfold read_body. rewrite Hjson.
    unfold normalize, branch. simpl. rewrite Hsuccess. simpl.
    unfold answer_of. simpl. rewrite Hanswer. by rewrite Htruthy. }
  split; [done|].
  intros text ->. rewrite Hout. congruence.
Qed.

Lemma legacy_answer_is_returned_bare_witness :
  outcome (sendAudioToWebhook phone
             (λ i, if i =? 0 then FetchPending
                   else FetchResolves (json_reply (VObj [("answer", VStr "hello")])))
             recording hook new_service)
  = Resolved (VStr "hello").
Proof.
  refine (proj1 (legacy_answer_is_returned_bare phone _ recording hook new_service 1
                   (json_reply (VObj [("answer", VStr "hello")]))
                   [("answer", VStr "hello")] (VStr "hello") _ _ _ _ _ _ _ _)).
  - unfold MAX_RETRIES. lia.
  - intros i Hi. replace i with 0 by lia. apply pending_fetch_fails.
  - reflexivity.
  - reflexivity.
  - reflexivity.
  - reflexivity.
  - reflexivity.
  - reflexivity.
Defined.

(** ** C5: audio that does not decode *)

(** C5 (counterexample).  The reply is structured, its audio is not
    base64, and its text payload is the JSON text [null]: reading
    [textData.answer] throws, every attempt fails, and the call rejects. *)
Lemma undecodable_audio_with_null_text_rejects :
  let run := sendAudioToWebhook desktop
               (λ _, FetchResolves (json_reply
                  (VObj [("success", VBool true); ("textResponse", VStr "null");
                         ("audioResponse", VStr "!!!")])))
               recording hook new_service in
  atob desktop "!!!" = None ∧
  outcome run = Rejected (new_Error "Palvelinyhteys epäonnistui").
Proof. vm_compute. split; reflexivity. Qed.

(** C5 (as amended).  When the first attempt that does not fail receives a
    2xx reply that takes the structured branch, whose [audioResponse] is a
    string that [atob] rejects and whose text payload is not [null], the
    call resolves with the text alone: [answer], else [response], else the
    placeholder, read from the parsed text payload.  No object URL is
    created. *)
Theorem undecodable_audio_gives_text
    P net audioBlob webhookUrl σ k response data textResponse audio :
  k ≤ MAX_RETRIES →
  (∀ i, i < k → attempt_fails P (net i)) →
  net k = FetchResolves response →
  ok response = true →
  read_body P response = inr data →
  branch data = inr StructuredBranch →
  get data "textResponse" = inr textResponse →
  get data "audioResponse" = inr (VStr audio) →
  atob P (strip_data_url_prefix audio) = None →
  text_data P textResponse ≠ VNull →
  text_data P textResponse ≠ VUndefined →
  ∃ text,
    answer_of (text_data P textResponse) = inr text ∧
    truthy text = true ∧
    (∀ σ', normalize P data σ' = (inr text, σ')) ∧
    outcome (sendAudioToWebhook P net audioBlob webhookUrl σ) = Resolved text.
Proof.
  intros Hk Hfail Hnet Hok Hbody Hbranch Htext Haudio Hatob Hnull Hundef.
  destruct (answer_of_defined _ Hnull Hundef) as (text & Hanswer & Htruthy).
  exists text.
  assert (∀ σ', normalize P data σ' = (inr text, σ')) as Hnorm.
  { intros σ'. unfold normalize. rewrite Hbranch, Htext, Haudio.
    unfold structured. by rewrite Hatob, Hanswer. }
  repeat split; try done.
  apply (send_resolves_outcome P net audioBlob webhookUrl σ k); [done|done|].
  intros σ'. rewrite Hnet. simpl. rewrite Hok, Hbody. simpl. by rewrite Hnorm.
Qed.

Lemma undecodable_audio_gives_text_witness :
  outcome (sendAudioToWebhook desktop
             (λ _, FetchResolves (json_reply
                (VObj [("success", VBool true); ("textResponse", VStr "Hei");
                       ("audioResponse", VStr "data:audio/mpeg;base64,!!!")])))
             recording hook new_service)
  = Resolved (VStr "Hei").
Proof.
  destruct (undecodable_audio_gives_text desktop
              (λ _, FetchResolves (json_reply
                 (VObj [("success", VBool true); ("textResponse", VStr "Hei");
                        ("audioResponse", VStr "data:audio/mpeg;base64,!!!")])))
              recording hook new_service 0 _ _ (VStr "Hei") "data:audio/mpeg;base64,!!!"
              ltac:(lia) ltac:(lia) eq_refl eq_refl eq_refl eq_refl eq_refl eq_refl eq_refl
              ltac:(vm_compute; congruence) ltac:(vm_compute; congruence))
    as (text & Hanswer & _ & _ & Hout).
  vm_compute in Hanswer. injection Hanswer as <-. exact Hout.
Defined.

(** ** C6: a body that is not JSON *)

(** C6 (counterexample).  Every response is a 2xx whose body can be read
    neither as JSON nor as text.  Each attempt throws and is retried; the
    call never resolves with the placeholder and rejects after the fourth
    attempt. *)
Lemma unreadable_body_is_not_swallowed :
  let run := sendAudioToWebhook desktop (λ _, FetchResolves broken_body)
               recording hook new_service in
  ok broken_body = true ∧
  length (requests (trace run)) = 4 ∧
  outcome run = Rejected (new_Error "Palvelinyhteys epäonnistui") ∧
  outcome run ≠ Resolved (VStr NO_ANSWER).
Proof. vm_compute. repeat split; congruence. Qed.

(** C6 (as amended).  The first attempt that has not failed so far receives
    a 2xx response whose body [response.json()] cannot parse.  If the body
    can be read as text and [JSON.parse] rejects that text too, the reply
    becomes [{ textResponse: text }] and the call resolves with the
    placeholder string.  If the body cannot be read as text either, the
    attempt throws: before the last attempt the call waits and tries again,
    on the last attempt it rejects with the generic failure. *)
Theorem unparsable_body_fallbacks P net audioBlob webhookUrl σ k response error :
  k ≤ MAX_RETRIES →
  (∀ i, i < k → attempt_fails P (net i)) →
  net k = FetchResolves response →
  ok response = true →
  json_ response = inl error →
  let run := sendAudioToWebhook P net audioBlob webhookUrl σ in
  let req := upload_request (processBlob P audioBlob) webhookUrl (begin_send σ).1 in
  (∀ text e, text_ response = inr text → JSON_parse P (VStr text) = inl e →
     read_body P response = inr (VObj [("textResponse", VStr text)]) ∧
     outcome run = Resolved (VStr NO_ANSWER)) ∧
  (∀ textError, text_ response = inl textError →
     attempt_fails P (net k) ∧
     (k = MAX_RETRIES → outcome run = Rejected (new_Error "Palvelinyhteys epäonnistui")) ∧
     (k < MAX_RETRIES → ∃ rest, trace run = rounds req 0 (S (S k)) ++ rest)).
Proof.
  intros Hk Hfail Hnet Hok Hjson run req. split.
  - intros text e Htext Hparse.
    assert (read_body P response = inr (VObj [("textResponse", VStr text)])) as Hbody.
    { unfold read_body. by rewrite Hjson, Htext, Hparse. }
    split; [done|].
    apply (send_resolves_outcome P net audioBlob webhookUrl σ k); [done|done|].
    intros σ'. rewrite Hnet. simpl. by rewrite Hok, Hbody.
  - intros textError Htext.
    assert (∀ σ', after_race P (race_settles (net k)) σ' =
                  (inl (new_Error ("Failed to parse response: " +:+ error_toString error)), σ'))
      as Hthrow.
    { intros σ'. rewrite Hnet. simpl. rewrite Hok. simpl.
      unfold read_body. by rewrite Hjson, Htext. }
    assert (attempt_fails P (net k)) as Hfails.
    { intros σ'. by rewrite Hthrow. }
    split; [done|]. split.
    + intros ->. subst run.
      destruct (send_reaches P net audioBlob webhookUrl σ MAX_RETRIES Hk Hfail)
        as (σk & _ & ->).
      rewrite outcome_prepend. unfold resume_after_race. by rewrite Hthrow.
    + intros Hlt. subst run.
      destruct (send_reaches P net audioBlob webhookUrl σ (S k)) as (σk & _ & ->).
      * lia.
      * intros i Hi. destruct (decide (i = k)) as [->|]; [done|]. apply Hfail. lia.
      * rewrite trace_prepend. eauto.
Qed.

Lemma unparsable_body_fallbacks_witness :
  outcome (sendAudioToWebhook desktop (λ _, FetchResolves (text_reply "Service OK"))
             recording hook new_service)
  = Resolved (VStr NO_ANSWER).
Proof.
  destruct (unparsable_body_fallbacks desktop (λ _, FetchResolves (text_reply "Service OK"))
              recording hook new_service 0 (text_reply "Service OK")
              (mkError ClassSyntaxError "SyntaxError" "Unexpected token")
              ltac:(lia) ltac:(lia) eq_refl eq_refl eq_refl) as [Htext _].
  exact (proj2 (Htext "Service OK" _ eq_refl eq_refl)).
Defined.

(** ** C7: which branch decodes a reply *)

(** C7 (counterexample).  A reply whose [success] is the string ["yes"]
    takes the structured branch although [success === true] is false; a
    reply with [success: true] and an empty [textResponse] takes the legacy
    branch although both payloads are present. *)
Lemma branch_is_not_by_strict_success :
  let loose := VObj [("success", VStr "yes"); ("textResponse", VStr "Hei");
                     ("audioResponse", VStr "SGVp")] in
  let empty := VObj [("success", VBool true); ("textResponse", VStr "");
                     ("audioResponse", VStr "SGVp")] in
  (branch loose = inr StructuredBranch ∧ ¬ spec_structured_condition loose) ∧
  (branch empty = inr LegacyBranch ∧ spec_structured_condition empty).
Proof.
  split; split.
  - reflexivity.
  - intros [Hsuccess _]. discriminate Hsuccess.
  - reflexivity.
  - split; [reflexivity|]. split; eexists; (split; [reflexivity|discriminate]).
Qed.

(** C7 (as amended).  For a reply that is not [null], the structured branch
    is taken exactly when [success], [textResponse] and [audioResponse] are
    all truthy (none of them [undefined], [null], [false], [0], [NaN] or
    the empty string); it decodes these two payloads.  In every other case
    the reply is read the legacy way, as [answer], [response] or the
    placeholder. *)
Theorem structured_branch_condition P data σ :
  match get data "success", get data "textResponse", get data "audioResponse" with
  | inr success, inr textResponse, inr audioResponse =>
      let all_truthy := truthy success && truthy textResponse && truthy audioResponse in
      branch data = inr (if all_truthy then StructuredBranch else LegacyBranch) ∧
      normalize P data σ =
        (if all_truthy then structured P textResponse audioResponse σ
         else (answer_of data, σ)) ∧
      (all_truthy = false ↔
       ∃ v, v ∈ [success; textResponse; audioResponse] ∧
            v ∈ [VUndefined; VNull; VBool false; VNum "0"; VNum "NaN"; VStr ""])
  | _, _, _ => data = VNull ∨ data = VUndefined
  end.
Proof.
  destruct (get data "success") as [e|success] eqn:Hs;
    [destruct data; (discriminate || auto)|].
  destruct (get data "textResponse") as [e|textResponse] eqn:Ht;
    [destruct data; (discriminate || auto)|].
  destruct (get data "audioResponse") as [e|audioResponse] eqn:Ha;
    [destruct data; (discriminate || auto)|].
  intros all_truthy.
  assert (branch data = inr (if all_truthy then StructuredBranch else LegacyBranch)) as Hbranch.
  { unfold branch. rewrite Hs, Ht, Ha. subst all_truthy.
    by destruct (truthy success), (truthy textResponse), (truthy audioResponse). }
  split; [done|]. split.
  - unfold normalize. rewrite Hbranch, Ht, Ha. by destruct all_truthy.
  - subst all_truthy. rewrite !andb_false_iff, !truthy_false. split.
    + intros [[H|H]|H]; eexists; (split; [|exact H]); rewrite !elem_of_cons; auto.
    + intros (v & Hv & Hfalsy).
      rewrite !elem_of_cons, elem_of_nil in Hv.
      destruct Hv as [->|[->|[->|[]]]]; auto.
Qed.

(** ** C8: decoding the same reply twice *)



(** ** C9: the blob that is uploaded *)

(** C9.  The blob of every fetch has the bytes of the input blob.  Its type
    is ["audio/webm"] when the user agent is a mobile one and the input type
    does not contain ["webm"]; otherwise it is the input type, the blob
    being the input blob itself.  The call makes at least one fetch, and
    each of its fetches posts that blob as the only form entry. *)
Theorem uploaded_blob P net audioBlob webhookUrl σ :
  let run := sendAudioToWebhook P net audioBlob webhookUrl σ in
  let processed := processBlob P audioBlob in
  blob_content processed = blob_content audioBlob ∧
  blob_type processed =
    (if isMobile P && negb (includes "webm" (blob_type audioBlob))
     then "audio/webm" else blob_type audioBlob) ∧
  (isMobile P && negb (includes "webm" (blob_type audioBlob)) = false ↔
   processed = audioBlob) ∧
  requests (trace run) ≠ [] ∧
  Forall (λ req, req_body req = [mkEntry "data0" processed "speech.webm"] ∧
                 req_url req = webhookUrl)
         (requests (trace run)).
Proof.
  intros run processed. subst run processed.
  unfold processBlob.
  split; [by destruct (_ && _)|].
  split; [by destruct (_ && _)|].
  split.
  { destruct (isMobile P && negb (includes "webm" (blob_type audioBlob))) eqn:Hcase.
    - split; [done|]. intros Heq.
      destruct audioBlob as [content type]. simpl in *. injection Heq as Heq.
      rewrite <- Heq in Hcase. rewrite andb_true_iff in Hcase.
      by destruct Hcase as [_ Hcase].
    - done. }
  rewrite send_unfold.
  split.
  - simpl. rewrite trace_prepend. simpl. done.
  - eapply Forall_impl; [apply send_loop_requests|].
    by intros req ->.
Qed.

(** ** C10: the type of the decoded audio blob *)

(** C10.  When a reply takes the structured branch and its [audioResponse]
    is a string that [atob] decodes, after an optional [data:audio/...]
    prefix of any subtype has been removed, decoding registers exactly one
    blob: the decoded bytes, typed ["audio/mpeg"]; the [audioUrl] of the
    result is the URL of that blob.  More generally every blob a call
    registers is typed ["audio/mpeg"]. *)
Theorem audio_blob_is_mpeg P data textResponse audio binaryString :
  branch data = inr StructuredBranch →
  get data "textResponse" = inr textResponse →
  get data "audioResponse" = inr (VStr audio) →
  atob P (strip_data_url_prefix audio) = Some binaryString →
  (∀ σ,
     object_urls (normalize P data σ).2 =
       object_urls σ ++ [mkBlob (char_codes binaryString) "audio/mpeg"] ∧
     (∀ text, answer_of (text_data P textResponse) = inr text →
        (normalize P data σ).1 =
          inr (JSON_stringify
                 (VObj [("text", text);
                        ("audioUrl", VStr (blob_url (length (object_urls σ))))])))) ∧
  (∀ net audioBlob webhookUrl σ,
     ∃ new,
       object_urls (final_state (sendAudioToWebhook P net audioBlob webhookUrl σ))
         = object_urls σ ++ new ∧
       Forall is_mpeg new).
Proof.
  intros Hbranch Htext Haudio Hatob. split.
  - intros σ. unfold normalize. rewrite Hbranch, Htext, Haudio.
    unfold structured. rewrite Hatob. simpl.
    destruct (answer_of (text_data P textResponse)) as [e|text]; simpl.
    + split; [done|]. intros text' [=].
    + split; [done|]. by intros text' [= <-].
  - intros net audioBlob webhookUrl σ. rewrite send_unfold.
    destruct (send_loop_registers P net
                (upload_request (processBlob P audioBlob) webhookUrl (begin_send σ).1)
                (S (S MAX_RETRIES)) 0 None (begin_send σ).2) as (new & Hnew & Hmpeg).
    exists new. split; [|done]. rewrite Hnew.
    unfold begin_send. by destruct (abortController σ).
Qed.

Lemma audio_blob_is_mpeg_witness :
  strip_data_url_prefix "data:audio/wav;base64,SGVp" = "SGVp" ∧
  object_urls (normalize desktop spoken_reply new_service).2 =
    [mkBlob [72; 101; 105] "audio/mpeg"].
Proof.
  split; [reflexivity|].
  exact (proj1 (proj1 (audio_blob_is_mpeg desktop spoken_reply (VStr "Hei")
                         "data:audio/wav;base64,SGVp" "Hei"
                         eq_refl eq_refl eq_refl eq_refl) new_service)).
Defined.

(** * Further properties of the service *)

(** ** Substrings *)

Lemma strip_prefix_spec p : ∀ s r, strip_prefix p s = Some r ↔ s = p +:+ r.
Proof.
  induction p as [|a p IH]; intros s r; simpl.
  - split; [by intros [= ->]|by intros ->].
  - destruct s as [|b s]; [done|].
    destruct (Ascii.eqb_spec a b) as [->|Hne].
    + rewrite IH. split; [by intros ->|by intros [= ->]].
    + split; [done|]. intros [= -> _]. done.
Qed.

Lemma includes_spec needle : ∀ s,
  includes needle s = true ↔ ∃ pre post, s = pre +:+ needle +:+ post.
Proof.
  induction s as [|c s IH]; simpl; unfold starts_with.
  - rewrite orb_false_r. split.
    + destruct (strip_prefix needle "") as [r|] eqn:Hr; [|done].
      intros _. apply strip_prefix_spec in Hr. by exists "", r.
    + intros (pre & post & Heq). destruct pre; [|done]. simpl in Heq.
      by rewrite (proj2 (strip_prefix_spec needle "" post) Heq).
  - rewrite orb_true_iff, IH. split.
    + intros [Hstart|(pre & post & ->)].
      * destruct (strip_prefix needle (String c s)) as [r|] eqn:Hr; [|done].
        apply strip_prefix_spec in Hr. by exists "", r.
      * by exists (String c pre), post.
    + intros (pre & post & Heq). destruct pre as [|c' pre]; simpl in Heq.
      * left. by rewrite (proj2 (strip_prefix_spec needle _ post) Heq).
      * right. injection Heq as -> ->. by exists pre, post.
Qed.

Lemma lower_app a b : lower (a +:+ b) = lower a +:+ lower b.
Proof. induction a as [|c a IH]; simpl; [done|by rewrite IH]. Qed.

(** ** [isMobile] *)

(** X1.  The user agent is taken for a mobile one exactly when, letter case
    aside, it contains one of the eight keywords; so a keyword written in
    any case, anywhere in the user agent, is enough. *)
Theorem isMobile_by_keyword P :
  (isMobile P = true ↔
   ∃ k pre post, k ∈ mobile_keywords ∧ lower (userAgent P) = pre +:+ lower k +:+ post) ∧
  (∀ k word pre post,
     k ∈ mobile_keywords → lower word = lower k →
     userAgent P = pre +:+ word +:+ post → isMobile P = true).
Proof.
  assert (isMobile P = true ↔
          ∃ k pre post, k ∈ mobile_keywords ∧
                        lower (userAgent P) = pre +:+ lower k +:+ post) as Hiff.
  { unfold isMobile. rewrite existsb_exists. split.
    - intros (k & Hin & Hk). apply includes_spec in Hk as (pre & post & Heq).
      exists k, pre, post. by rewrite list_elem_of_In.
    - intros (k & pre & post & Hin & Heq). exists k.
      rewrite <- list_elem_of_In. split; [done|].
      apply includes_spec. eauto. }
  split; [exact Hiff|].
  intros k word pre post Hin Hword Hua. apply Hiff.
  exists k, (lower pre), (lower post). split; [done|].
  by rewrite Hua, !lower_app, Hword.
Qed.

(** ** [processBlob] *)

(** X2.  Preparing a blob twice is the same as preparing it once, and on a
    mobile user agent the type of a prepared blob always contains
    ["webm"]. *)
Theorem processBlob_idempotent P audioBlob :
  processBlob P (processBlob P audioBlob) = processBlob P audioBlob ∧
  (isMobile P = true → includes "webm" (blob_type (processBlob P audioBlob)) = true).
Proof.
  unfold processBlob.
  destruct (isMobile P) eqn:Hmobile; simpl.
  - destruct (includes "webm" (blob_type audioBlob)) eqn:Hwebm; simpl.
    + by rewrite Hwebm.
    + done.
  - done.
Qed.

(** ** The data URL prefix *)

Lemma includes_semicolon_cons c s :
  includes ";" (String c s) = Ascii.eqb ";"%char c || includes ";" s.
Proof.
  cbn [includes]. unfold starts_with at 1. cbn [strip_prefix].
  by destruct (Ascii.eqb ";"%char c).
Qed.

Lemma span_not_semicolon_spec : ∀ s run rest,
  span_not_semicolon s = (run, rest) →
  s = run +:+ rest ∧ includes ";" run = false.
Proof.
  induction s as [|c s IH]; intros run rest; simpl.
  - by intros [= <- <-].
  - destruct (Ascii.eqb_spec c ";"%char) as [->|Hne].
    + by intros [= <- <-].
    + destruct (span_not_semicolon s) as [run' rest'] eqn:Hspan.
      intros [= <- <-]. destruct (IH run' rest' eq_refl) as [-> Hrun].
      split; [done|]. rewrite includes_semicolon_cons, Hrun.
      by destruct (Ascii.eqb_spec ";"%char c) as [<-|].
Qed.

Lemma span_not_semicolon_app : ∀ run rest,
  includes ";" run = false →
  span_not_semicolon (run +:+ String ";"%char rest) = (run, String ";"%char rest).
Proof.
  induction run as [|c run IH]; intros rest Hrun; [done|].
  rewrite includes_semicolon_cons in Hrun. apply orb_false_iff in Hrun as [Hc Hrun].
  simpl. destruct (Ascii.eqb_spec c ";"%char) as [->|_]; [done|].
  by rewrite IH.
Qed.

(** X3.  The prefix removed from [audioResponse] is exactly
    [data:audio/<subtype>;base64,] with a non-empty subtype free of [;], at
    the very start; what follows it is returned.  Every other string is
    returned unchanged: in particular one whose media type carries a
    parameter before [;base64,]. *)
Theorem strip_data_url_prefix_spec :
  (∀ subtype payload,
     subtype ≠ "" → includes ";" subtype = false →
     strip_data_url_prefix ("data:audio/" +:+ subtype +:+ ";base64," +:+ payload) = payload) ∧
  (∀ s,
     strip_data_url_prefix s = s ∨
     ∃ subtype payload,
       subtype ≠ "" ∧ includes ";" subtype = false ∧
       s = "data:audio/" +:+ subtype +:+ ";base64," +:+ payload ∧
       strip_data_url_prefix s = payload) ∧
  (∀ subtype parameter payload,
     subtype ≠ "" → includes ";" subtype = false →
     starts_with "base64," parameter = false →
     let s := "data:audio/" +:+ subtype +:+ ";" +:+ parameter +:+ ";base64," +:+ payload in
     strip_data_url_prefix s = s).
Proof.
  split; [|split].
  - intros subtype payload Hne Hsemi. unfold strip_data_url_prefix.
    rewrite (proj2 (strip_prefix_spec "data:audio/" _ _) eq_refl).
    change (";base64," +:+ payload) with (String ";"%char ("base64," +:+ payload)).
    rewrite span_not_semicolon_app by done.
    destruct (String.eqb_spec subtype "") as [|_]; [done|].
    by rewrite (proj2 (strip_prefix_spec ";base64,"
                         (String ";"%char ("base64," +:+ payload)) payload) eq_refl).
  - intros s. unfold strip_data_url_prefix.
    destruct (strip_prefix "data:audio/" s) as [rest|] eqn:Hdata; [|by left].
    apply strip_prefix_spec in Hdata as ->.
    destruct (span_not_semicolon rest) as [subtype rest'] eqn:Hspan.
    apply span_not_semicolon_spec in Hspan as [-> Hsemi].
    destruct (String.eqb_spec subtype "") as [|Hne]; [by left|].
    destruct (strip_prefix ";base64," rest') as [payload|] eqn:Hbase; [|by left].
    apply strip_prefix_spec in Hbase as ->.
    right. by exists subtype, payload.
  - intros subtype parameter payload Hne Hsemi Hparam s. subst s.
    unfold strip_data_url_prefix.
    rewrite (proj2 (strip_prefix_spec "data:audio/" _ _) eq_refl).
    change (";" +:+ parameter +:+ ";base64," +:+ payload)
      with (String ";"%char (parameter +:+ ";base64," +:+ payload)).
    rewrite span_not_semicolon_app by done.
    destruct (String.eqb_spec subtype "") as [|_]; [done|].
    destruct (strip_prefix ";base64," _) as [r|] eqn:Hbase; [|done].
    exfalso. apply strip_prefix_spec in Hbase.
    injection Hbase as Hbase.
    unfold starts_with in Hparam.
    destruct (strip_prefix "base64," parameter) as [r'|] eqn:Hr'; [done|].
    revert Hr' Hbase. clear.
    do 7 (destruct parameter as [|? parameter]; [done|]).
    simpl. intros Hr' [= -> -> -> -> -> -> -> _]. by simpl in Hr'.
Qed.

(** ** Controllers *)

Lemma send_loop_frame P net req fuel :
  ∀ retries lastError σ,
    signals (final_state (send_loop P net req fuel retries lastError σ)) = signals σ ∧
    abortController (final_state (send_loop P net req fuel retries lastError σ))
      = abortController σ.
Proof.
  induction fuel as [|fuel IH]; intros retries lastError σ; [done|].
  simpl. destruct (retries <=? MAX_RETRIES).
  - rewrite final_state_prepend.
    pose proof (after_race_frame P (race σ (req_signal req) (net retries)) σ) as Hframe.
    destruct (after_race P _ σ) as [[error|v] σ']; simpl in *; [|done].
    destruct (retries =? MAX_RETRIES); [done|].
    destruct (IH (S retries) (Some error) σ') as [-> ->]. done.
  - by destruct lastError.
Qed.

(** X4.  A call creates exactly one controller, leaves it installed and not
    aborted when it settles, and aborts no controller other than the one
    that was installed when it started: every other signal is as before. *)
Theorem send_aborts_only_previous P net audioBlob webhookUrl σ :
  let σ' := final_state (sendAudioToWebhook P net audioBlob webhookUrl σ) in
  length (signals σ') = S (length (signals σ)) ∧
  abortController σ' = Some (length (signals σ)) ∧
  aborted σ' (length (signals σ)) = false ∧
  ∀ controller, controller < length (signals σ) →
    aborted σ' controller =
    aborted σ controller || bool_decide (abortController σ = Some controller).
Proof.
  intros σ'. subst σ'. rewrite send_unfold.
  destruct (send_loop_frame P net
              (upload_request (processBlob P audioBlob) webhookUrl (begin_send σ).1)
              (S (S MAX_RETRIES)) 0 None (begin_send σ).2) as [Hsignals Hctl].
  unfold aborted. rewrite Hsignals, Hctl. clear Hsignals Hctl.
  unfold begin_send.
  destruct (abortController σ) as [previous|]; simpl.
  - rewrite length_app, length_insert. simpl.
    split; [lia|]. split; [done|]. split.
    + rewrite lookup_app_r by (by rewrite length_insert).
      by rewrite length_insert, Nat.sub_diag.
    + intros controller Hlt.
      rewrite lookup_app_l by (by rewrite length_insert).
      destruct (decide (previous = controller)) as [->|Hne].
      * rewrite list_lookup_insert_eq by done.
        rewrite bool_decide_eq_true_2 by done. by rewrite orb_true_r.
      * rewrite list_lookup_insert_ne by done.
        rewrite bool_decide_eq_false_2 by congruence. by rewrite orb_false_r.
  - rewrite length_app. simpl. split; [lia|]. split; [done|]. split.
    + rewrite lookup_app_r by done. by rewrite Nat.sub_diag.
    + intros controller Hlt. rewrite lookup_app_l by done.
      by rewrite orb_false_r.
Qed.

(** X5.  [cleanup()] aborts the installed controller and no other, clears
    the field, and keeps every object URL registered; a second [cleanup()]
    changes nothing, and the call that follows a [cleanup()] finds no
    controller to abort. *)
Theorem cleanup_spec σ :
  abortController (cleanup σ) = None ∧
  cleanup (cleanup σ) = cleanup σ ∧
  object_urls (cleanup σ) = object_urls σ ∧
  (∀ controller, controller < length (signals σ) →
     aborted (cleanup σ) controller =
     aborted σ controller || bool_decide (abortController σ = Some controller)) ∧
  signals (begin_send (cleanup σ)).2 = signals (cleanup σ) ++ [false].
Proof.
  assert (abortController (cleanup σ) = None) as Hnone.
  { unfold cleanup. by destruct (abortController σ) eqn:Hctl. }
  split; [done|]. split.
  { unfold cleanup at 1. by rewrite Hnone. }
  split.
  { unfold cleanup. by destruct (abortController σ). }
  split.
  - intros controller Hlt. unfold cleanup, aborted.
    destruct (abortController σ) as [current|]; simpl.
    + destruct (decide (current = controller)) as [->|Hne].
      * rewrite list_lookup_insert_eq by done.
        rewrite bool_decide_eq_true_2 by done. by rewrite orb_true_r.
      * rewrite list_lookup_insert_ne by done.
        rewrite bool_decide_eq_false_2 by congruence. by rewrite orb_false_r.
    + by rewrite orb_false_r.
  - unfold begin_send. by rewrite Hnone.
Qed.

(** ** Attempts, delays and rejections of every call *)

Lemma send_loop_shape P net req fuel :
  ∀ retries lastError σ,
    retries ≤ MAX_RETRIES →
    S MAX_RETRIES - retries < fuel →
    ∃ k, retries ≤ k ∧ k ≤ MAX_RETRIES ∧
      trace (send_loop P net req fuel retries lastError σ)
        = rounds req retries (S k - retries) ∧
      ((∃ v, outcome (send_loop P net req fuel retries lastError σ) = Resolved v) ∨
       (k = MAX_RETRIES ∧
        ∃ e, outcome (send_loop P net req fuel retries lastError σ)
             = Rejected (final_error e))).
Proof.
  induction fuel as [|fuel IH]; intros retries lastError σ Hle Hfuel; [lia|].
  rewrite send_loop_step by done.
  rewrite trace_prepend, outcome_prepend. unfold resume_after_race.
  destruct (after_race P _ σ) as [[error|v] σ']; simpl.
  - destruct (Nat.eqb_spec retries MAX_RETRIES) as [->|Hne].
    + exists MAX_RETRIES. split; [done|]. split; [done|]. split.
      * replace (S MAX_RETRIES - MAX_RETRIES) with 1 by lia.
        by rewrite rounds_S.
      * right. eauto.
    + destruct (IH (S retries) (Some error) σ') as (k & Hk1 & Hk2 & Htrace & Hout);
        [lia|lia|].
      exists k. split; [lia|]. split; [done|]. split; [|done].
      rewrite Htrace.
      replace (S k - retries) with (S (S k - S retries)) by lia.
      by rewrite rounds_S.
  - exists retries. split; [done|]. split; [done|]. split.
    + replace (S retries - retries) with 1 by lia.
      by rewrite rounds_S.
    + left. eauto.
Qed.

(** X6.  Whatever the network does, a call makes between one and four
    fetches, all with the same request; it waits before each fetch but the
    first, and the waits are the first ones of 1000, 2000, 4000 ms: the
    trace is that of attempts 0 to [k] for some [k ≤ 3]. *)
Theorem attempts_and_delays P net audioBlob webhookUrl σ :
  let run := sendAudioToWebhook P net audioBlob webhookUrl σ in
  let req := upload_request (processBlob P audioBlob) webhookUrl (begin_send σ).1 in
  ∃ k, k ≤ MAX_RETRIES ∧
    trace run = rounds req 0 (S k) ∧
    requests (trace run) = replicate (S k) req ∧
    delays (trace run) = take k [1000; 2000; 4000]%N.
Proof.
  intros run req. subst run. rewrite send_unfold. fold req.
  destruct (send_loop_shape P net req (S (S MAX_RETRIES)) 0 None (begin_send σ).2)
    as (k & _ & Hk & Htrace & _); [unfold MAX_RETRIES; lia..|].
  exists k. split; [done|]. rewrite Htrace, Nat.sub_0_r.
  split; [done|].
  unfold MAX_RETRIES in Hk.
  destruct k as [|[|[|[|k]]]]; [done..|lia].
Qed.

(** X7.  A call that rejects has made all four attempts, with the three
    waits between them, and rejects with one of the three fixed errors.  So
    the error of an attempt is never passed on as it is, and no rejection
    comes from the statements after the loop ([throw lastError] and the
    ['Unexpected error in webhook service'] that follows it). *)
Theorem rejects_only_after_last_attempt P net audioBlob webhookUrl σ e :
  let run := sendAudioToWebhook P net audioBlob webhookUrl σ in
  outcome run = Rejected e →
  e ∈ terminal_errors ∧
  e ≠ new_Error "Unexpected error in webhook service" ∧
  length (requests (trace run)) = S MAX_RETRIES ∧
  delays (trace run) = [1000; 2000; 4000]%N.
Proof.
  intros run. subst run. rewrite send_unfold.
  destruct (send_loop_shape P net
              (upload_request (processBlob P audioBlob) webhookUrl (begin_send σ).1)
              (S (S MAX_RETRIES)) 0 None (begin_send σ).2)
    as (k & _ & Hk & Htrace & [[v Hresolved]|(-> & e' & Hrejected)]);
    [unfold MAX_RETRIES; lia..| |].
  - rewrite Hresolved. discriminate.
  - rewrite Hrejected. intros [= <-].
    split; [apply final_error_terminal|].
    split.
    + unfold final_error.
      destruct (String.eqb _ _); [discriminate|].
      destruct (_ && _); discriminate.
    + by rewrite Htrace.
Qed.

Lemma rejects_only_after_last_attempt_witness :
  let run := sendAudioToWebhook desktop (λ _, FetchResolves server_error)
               recording hook new_service in
  new_Error "Palvelinyhteys epäonnistui" ∈ terminal_errors ∧
  length (requests (trace run)) = 4 ∧
  delays (trace run) = [1000; 2000; 4000]%N.
Proof.
  destruct (rejects_only_after_last_attempt desktop (λ _, FetchResolves server_error)
              recording hook new_service (new_Error "Palvelinyhteys epäonnistui")
              eq_refl)
    as (Hterminal & _ & Hrequests & Hdelays).
  split; [exact Hterminal|]. split; [exact Hrequests|exact Hdelays].
Defined.

(** ** What a call resolves with *)

Lemma stringify_object_truthy props : truthy (JSON_stringify (VObj props)) = true.
Proof. unfold JSON_stringify. cbn [serialize]. done. Qed.

Lemma answer_of_truthy o v : answer_of o = inr v → truthy v = true.
Proof.
  unfold answer_of.
  destruct (get o "answer") as [e|answer]; [done|].
  destruct (truthy answer) eqn:Hanswer; [by intros [= <-]|].
  destruct (get o "response") as [e|response]; [done|].
  intros [= <-]. unfold or_else. by destruct (truthy response) eqn:Hresponse.
Qed.

Lemma normalize_truthy P data σ v : (normalize P data σ).1 = inr v → truthy v = true.
Proof.
  unfold normalize.
  destruct (branch data) as [e|[]]; [done| |apply answer_of_truthy].
  destruct (get data "textResponse") as [e|textResponse]; [done|].
  destruct (get data "audioResponse") as [e|audioResponse]; [done|].
  unfold structured.
  destruct audioResponse as [| | | |audio| |]; try apply answer_of_truthy.
  destruct (atob P (strip_data_url_prefix audio)); [|apply answer_of_truthy].
  simpl. destruct (answer_of (text_data P textResponse)) as [e|text]; [done|].
  simpl. intros [= <-]. apply stringify_object_truthy.
Qed.

Lemma after_race_truthy P raced σ v : (after_race P raced σ).1 = inr v → truthy v = true.
Proof.
  unfold after_race.
  destruct raced as [e|response]; [done|].
  destruct (negb (ok response)); [done|].
  destruct (read_body P response); [done|].
  apply normalize_truthy.
Qed.

Lemma send_loop_truthy P net req fuel :
  ∀ retries lastError σ v,
    outcome (send_loop P net req fuel retries lastError σ) = Resolved v → truthy v = true.
Proof.
  induction fuel as [|fuel IH]; intros retries lastError σ v; [done|].
  simpl. destruct (retries <=? MAX_RETRIES).
  - rewrite outcome_prepend.
    pose proof (after_race_truthy P (race σ (req_signal req) (net retries)) σ) as Htruthy.
    destruct (after_race P _ σ) as [[error|v'] σ']; simpl in *.
    + destruct (retries =? MAX_RETRIES); [done|apply IH].
    + intros [= <-]. by apply Htruthy.
  - by destruct lastError.
Qed.

(** X8.  A call never resolves with an empty answer: the value it resolves
    with is truthy, so it is neither [undefined], [null] nor the empty
    string. *)
Theorem resolved_value_is_never_empty P net audioBlob webhookUrl σ v :
  outcome (sendAudioToWebhook P net audioBlob webhookUrl σ) = Resolved v →
  truthy v = true ∧ v ≠ VStr "" ∧ v ≠ VNull ∧ v ≠ VUndefined.
Proof.
  rewrite send_unfold. intros Htruthy%send_loop_truthy.
  split; [done|]. repeat split; intros ->; discriminate Htruthy.
Qed.

Lemma resolved_value_is_never_empty_witness :
  truthy (VStr NO_ANSWER) = true ∧ VStr NO_ANSWER ≠ VStr "".
Proof.
  destruct (resolved_value_is_never_empty desktop
              (λ _, FetchResolves (json_reply (VObj [("answer", VStr "")])))
              recording hook new_service (VStr NO_ANSWER) eq_refl) as (H1 & H2 & _).
  by split.
Defined.

(** X9.  Only the error of the fourth attempt decides how a call rejects.
    A fetch rejected with a [TypeError] whose message contains
    ["Failed to fetch"] gives the network message; a timeout or a response
    with a non-2xx status gives the generic message, whatever went wrong on
    the earlier attempts. *)
Theorem last_attempt_decides_the_error P net audioBlob webhookUrl σ :
  (∀ i, i < MAX_RETRIES → attempt_fails P (net i)) →
  let run := sendAudioToWebhook P net audioBlob webhookUrl σ in
  match net MAX_RETRIES with
  | FetchRejects e =>
      outcome run = Rejected (final_error e) ∧
      (err_name e = "TypeError" → is_TypeError e = true →
       includes "Failed to fetch" (err_message e) = true →
       outcome run =
         Rejected (new_Error "Verkkoyhteydessä on ongelma. Tarkista internetyhteys."))
  | FetchPending => outcome run = Rejected (new_Error "Palvelinyhteys epäonnistui")
  | FetchResolves response =>
      ok response = false →
      outcome run = Rejected (new_Error "Palvelinyhteys epäonnistui")
  end.
Proof.
  intros Hfail run. subst run.
  destruct (send_reaches P net audioBlob webhookUrl σ MAX_RETRIES) as (σk & _ & ->);
    [done|done|].
  rewrite outcome_prepend. unfold resume_after_race.
  destruct (net MAX_RETRIES) as [e| |response]; simpl.
  - split; [done|]. intros Hname Htype Hmessage.
    unfold final_error. by rewrite Hname, Htype, Hmessage.
  - done.
  - intros Hok. by rewrite Hok.
Qed.

Lemma last_attempt_decides_the_error_witness :
  outcome (sendAudioToWebhook desktop offline_at_last recording hook new_service)
  = Rejected (new_Error "Verkkoyhteydessä on ongelma. Tarkista internetyhteys.").
Proof.
  pose proof (last_attempt_decides_the_error desktop offline_at_last
                recording hook new_service) as H.
  simpl in H. apply H; [|done..].
  intros i Hi. unfold offline_at_last.
  destruct (Nat.ltb_spec i MAX_RETRIES); [|lia]. by apply not_ok_fails.
Defined.

(** X10.  A 2xx reply that is JSON but not an object (a string, a number,
    a boolean or an array) is never shown: the call resolves with the
    placeholder. *)
Theorem non_object_reply_gives_placeholder P net audioBlob webhookUrl σ k response data :
  k ≤ MAX_RETRIES →
  (∀ i, i < k → attempt_fails P (net i)) →
  net k = FetchResolves response →
  ok response = true →
  read_body P response = inr data →
  not_an_object data →
  outcome (sendAudioToWebhook P net audioBlob webhookUrl σ) = Resolved (VStr NO_ANSWER).
Proof.
  intros Hk Hfail Hnet Hok Hbody Hdata.
  apply (send_resolves_outcome P net audioBlob webhookUrl σ k); [done|done|].
  intros σ'. rewrite Hnet. simpl. rewrite Hok, Hbody. simpl.
  by destruct data.
Qed.

Lemma non_object_reply_gives_placeholder_witness :
  outcome (sendAudioToWebhook desktop (λ _, FetchResolves (json_reply (VStr "Hei")))
             recording hook new_service)
  = Resolved (VStr NO_ANSWER).
Proof.
  apply (non_object_reply_gives_placeholder desktop _ recording hook new_service 0
           (json_reply (VStr "Hei")) (VStr "Hei")); (lia || done).
Defined.

(** X11.  A 2xx reply that is an object and does not take the structured
    branch always resolves, also when its [success] is [false]: with
    [answer] if that is truthy, else with [response] if that is truthy, else
    with the placeholder. *)
Theorem legacy_reply_falls_back P net audioBlob webhookUrl σ k response props :
  k ≤ MAX_RETRIES →
  (∀ i, i < k → attempt_fails P (net i)) →
  net k = FetchResolves response →
  ok response = true →
  read_body P response = inr (VObj props) →
  branch (VObj props) = inr LegacyBranch →
  outcome (sendAudioToWebhook P net audioBlob webhookUrl σ) =
  Resolved (or_else (lookup_prop "answer" props)
              (or_else (lookup_prop "response" props) (VStr NO_ANSWER))).
Proof.
  intros Hk Hfail Hnet Hok Hbody Hbranch.
  apply (send_resolves_outcome P net audioBlob webhookUrl σ k); [done|done|].
  intros σ'. rewrite Hnet. simpl. rewrite Hok, Hbody. simpl.
  unfold normalize. rewrite Hbranch. simpl.
  unfold answer_of, or_else. simpl.
  by destruct (truthy (lookup_prop "answer" props)).
Qed.

Lemma legacy_reply_falls_back_witness :
  outcome (sendAudioToWebhook desktop (λ _, FetchResolves (json_reply failure_reply))
             recording hook new_service)
  = Resolved (VStr "Hei").
Proof.
  apply (legacy_reply_falls_back desktop _ recording hook new_service 0
           (json_reply failure_reply)
           [("success", VBool false); ("error", VStr "No transcript");
            ("response", VStr "Hei")]); (lia || done).
Defined.

(** X12.  When a reply takes the structured branch and its [audioResponse]
    is not a string, no audio is decoded: the call resolves with the text
    alone and registers no object URL (the text payload not being
    [null]). *)
Theorem non_string_audio_gives_text
    P net audioBlob webhookUrl σ k response data textResponse audioResponse :
  k ≤ MAX_RETRIES →
  (∀ i, i < k → attempt_fails P (net i)) →
  net k = FetchResolves response →
  ok response = true →
  read_body P response = inr data →
  branch data = inr StructuredBranch →
  get data "textResponse" = inr textResponse →
  get data "audioResponse" = inr audioResponse →
  (∀ audio, audioResponse ≠ VStr audio) →
  text_data P textResponse ≠ VNull →
  text_data P textResponse ≠ VUndefined →
  ∃ text,
    answer_of (text_data P textResponse) = inr text ∧
    (∀ σ', normalize P data σ' = (inr text, σ')) ∧
    outcome (sendAudioToWebhook P net audioBlob webhookUrl σ) = Resolved text.
Proof.
  intros Hk Hfail Hnet Hok Hbody Hbranch Htext Haudio Hnot Hnull Hundef.
  destruct (answer_of_defined _ Hnull Hundef) as (text & Hanswer & _).
  exists text. split; [done|].
  assert (∀ σ', normalize P data σ' = (inr text, σ')) as Hnorm.
  { intros σ'. unfold normalize. rewrite Hbranch, Htext, Haudio.
    unfold structured. destruct audioResponse; try by rewrite Hanswer.
    by destruct (Hnot s). }
  split; [done|].
  apply (send_resolves_outcome P net audioBlob webhookUrl σ k); [done|done|].
  intros σ'. rewrite Hnet. simpl. rewrite Hok, Hbody. simpl. by rewrite Hnorm.
Qed.

Lemma non_string_audio_gives_text_witness :
  outcome (sendAudioToWebhook desktop (λ _, FetchResolves (json_reply buffer_reply))
             recording hook new_service)
  = Resolved (VStr "Hei").
Proof.
  destruct (non_string_audio_gives_text desktop
              (λ _, FetchResolves (json_reply buffer_reply))
              recording hook new_service 0 _ _ (VStr "Hei")
              (VObj [("type", VStr "Buffer"); ("data", VArr [VNum "72"])])
              ltac:(lia) ltac:(lia) eq_refl eq_refl eq_refl eq_refl eq_refl eq_refl
              ltac:(done) ltac:(done) ltac:(done))
    as (text & Hanswer & _ & Hout).
  vm_compute in Hanswer. injection Hanswer as <-. exact Hout.
Defined.

(** ** Object URLs *)

Section unanswered_audio.

Context (P : Platform) (net : Network) (req : Request).
Context (response : Response) (data textResponse : value) (audio binaryString : string).

Hypothesis every_attempt : ∀ i, i ≤ MAX_RETRIES → net i = FetchResolves response.
Hypothesis response_ok : ok response = true.
Hypothesis body : read_body P response = inr data.
Hypothesis structured_reply : branch data = inr StructuredBranch.
Hypothesis text_payload : get data "textResponse" = inr textResponse.
Hypothesis audio_payload : get data "audioResponse" = inr (VStr audio).
Hypothesis audio_decodes : atob P (strip_data_url_prefix audio) = Some binaryString.
Hypothesis text_is_null : text_data P textResponse = VNull.

Lemma unanswered_attempt σ :
  ∃ e, final_error e = new_Error "Palvelinyhteys epäonnistui" ∧
    after_race P (inr response) σ =
    (inl e, mkState (abortController σ) (signals σ)
              (object_urls σ ++ [mkBlob (char_codes binaryString) "audio/mpeg"])).
Proof.
  eexists. split; [|].
  2: { simpl. rewrite response_ok, body. simpl.
       unfold normalize. rewrite structured_reply, text_payload, audio_payload.
       unfold structured. rewrite audio_decodes, text_is_null. simpl. reflexivity. }
  reflexivity.
Qed.

Lemma unanswered_loop count :
  ∀ retries fuel lastError σ,
    aborted σ (req_signal req) = false →
    retries + count = MAX_RETRIES →
    send_loop P net req (S count + fuel) retries lastError σ =
    (Rejected (new_Error "Palvelinyhteys epäonnistui"),
     rounds req retries (S count),
     mkState (abortController σ) (signals σ)
       (object_urls σ ++ replicate (S count) (mkBlob (char_codes binaryString) "audio/mpeg"))).
Proof.
  induction count as [|count IH]; intros retries fuel lastError σ Hlive Hsum.
  - change (1 + fuel) with (S fuel).
    rewrite send_loop_step by lia.
    rewrite race_not_aborted, every_attempt by (done || lia).
    unfold resume_after_race. simpl race_settles.
    destruct (unanswered_attempt σ) as (e & He & ->).
    cbn [settle]. destruct (Nat.eqb_spec retries MAX_RETRIES); [|lia].
    simpl. by rewrite He, rounds_S, !app_nil_r.
  - change (S (S count) + fuel) with (S (S count + fuel)).
    rewrite send_loop_step by lia.
    rewrite race_not_aborted, every_attempt by (done || lia).
    unfold resume_after_race. simpl race_settles.
    destruct (unanswered_attempt σ) as (e & He & ->).
    cbn [settle]. destruct (Nat.eqb_spec retries MAX_RETRIES); [lia|].
    rewrite IH by (done || lia).
    simpl. rewrite <- !app_assoc.
    by rewrite (rounds_S req retries (S count)), <- app_assoc.
Qed.

End unanswered_audio.

(** X13.  A structured reply whose audio decodes but whose text payload
    parses to [null] fails the attempt after its audio blob has been
    registered.  When every attempt receives such a reply the call rejects
    with the generic failure and leaves four object URLs that are handed to
    no one. *)
Theorem unanswered_audio_leaks_urls
    P net audioBlob webhookUrl σ response data textResponse audio binaryString :
  (∀ i, i ≤ MAX_RETRIES → net i = FetchResolves response) →
  ok response = true →
  read_body P response = inr data →
  branch data = inr StructuredBranch →
  get data "textResponse" = inr textResponse →
  get data "audioResponse" = inr (VStr audio) →
  atob P (strip_data_url_prefix audio) = Some binaryString →
  text_data P textResponse = VNull →
  let run := sendAudioToWebhook P net audioBlob webhookUrl σ in
  outcome run = Rejected (new_Error "Palvelinyhteys epäonnistui") ∧
  object_urls (final_state run) =
    object_urls σ ++ replicate 4 (mkBlob (char_codes binaryString) "audio/mpeg").
Proof.
  intros Hnet Hok Hbody Hbranch Htext Haudio Hatob Hnull run. subst run.
  rewrite send_unfold.
  pose proof (unanswered_loop P net
                (upload_request (processBlob P audioBlob) webhookUrl (begin_send σ).1)
                response data textResponse audio binaryString
                Hnet Hok Hbody Hbranch Htext Haudio Hatob Hnull
                MAX_RETRIES 0 1 None (begin_send σ).2 (begin_send_fresh σ) eq_refl)
    as Hloop.
  change (S MAX_RETRIES + 1) with (S (S MAX_RETRIES)) in Hloop.
  rewrite Hloop. split; [done|]. simpl.
  unfold begin_send. by destruct (abortController σ).
Qed.

Lemma unanswered_audio_leaks_urls_witness :
  let run := sendAudioToWebhook desktop (λ _, FetchResolves (json_reply mute_reply))
               recording hook new_service in
  outcome run = Rejected (new_Error "Palvelinyhteys epäonnistui") ∧
  length (object_urls (final_state run)) = 4.
Proof.
  destruct (unanswered_audio_leaks_urls desktop
              (λ _, FetchResolves (json_reply mute_reply))
              recording hook new_service (json_reply mute_reply) mute_reply
              (VStr "null") "SGVp" "Hei"
              ltac:(done) eq_refl eq_refl eq_refl eq_refl eq_refl eq_refl eq_refl)
    as [Hout Hurls].
  split; [exact Hout|]. by rewrite Hurls.
Defined.

Lemma send_loop_skips_extends P net req count :
  ∀ first fuel lastError σ,
    aborted σ (req_signal req) = false →
    first + count ≤ MAX_RETRIES →
    (∀ i, first ≤ i < first + count → attempt_fails P (net i)) →
    ∃ lastError' σ' new,
      signals σ' = signals σ ∧
      object_urls σ' = object_urls σ ++ new ∧
      send_loop P net req (count + fuel) first lastError σ =
      prepend (rounds req first count)
        (send_loop P net req fuel (first + count) lastError' σ').
Proof.
  induction count as [|count IH]; intros first fuel lastError σ Hsig Hle Hfail.
  - exists lastError, σ, []. split; [done|]. split; [by rewrite app_nil_r|].
    rewrite Nat.add_0_r. simpl. by destruct (send_loop _ _ _ _ _ _ _) as [[? ?] ?].
  - change (S count + fuel) with (S (count + fuel)).
    rewrite send_loop_step by lia.
    rewrite race_not_aborted by done.
    unfold resume_after_race.
    pose proof (Hfail first ltac:(lia) σ) as Hthrown.
    pose proof (after_race_frame P (race_settles (net first)) σ) as [Hsignals _].
    destruct (after_race_registers P (race_settles (net first)) σ) as (new1 & Hnew1 & _).
    destruct (after_race P (race_settles (net first)) σ) as [[error|v] σ1];
      [|done].
    simpl in Hsignals, Hnew1. simpl.
    destruct (Nat.eqb_spec first MAX_RETRIES) as [->|_]; [lia|].
    destruct (IH (S first) fuel (Some error) σ1)
      as (lastError' & σ' & new2 & Hσ' & Hnew2 & Heq).
    + by rewrite (aborted_signals σ σ1).
    + lia.
    + intros i Hi. apply Hfail. lia.
    + exists lastError', σ', (new1 ++ new2). split; [congruence|].
      split; [by rewrite Hnew2, Hnew1, app_assoc|].
      rewrite Heq, prepend_app, rounds_S.
      by replace (S first + count) with (first + S count) by lia.
Qed.

(** X14.  When the first attempt that does not fail receives a structured
    reply whose audio decodes and whose text payload holds an answer, the
    call resolves with the JSON text of [{ text, audioUrl }], and
    [audioUrl] is an object URL that was not registered before the call
    and now serves exactly the decoded bytes, typed ["audio/mpeg"]. *)
Theorem spoken_reply_url_is_registered
    P net audioBlob webhookUrl σ k response data textResponse audio binaryString text :
  k ≤ MAX_RETRIES →
  (∀ i, i < k → attempt_fails P (net i)) →
  net k = FetchResolves response →
  ok response = true →
  read_body P response = inr data →
  branch data = inr StructuredBranch →
  get data "textResponse" = inr textResponse →
  get data "audioResponse" = inr (VStr audio) →
  atob P (strip_data_url_prefix audio) = Some binaryString →
  answer_of (text_data P textResponse) = inr text →
  let run := sendAudioToWebhook P net audioBlob webhookUrl σ in
  ∃ n,
    length (object_urls σ) ≤ n ∧
    outcome run =
      Resolved (JSON_stringify (VObj [("text", text); ("audioUrl", VStr (blob_url n))])) ∧
    object_urls (final_state run) !! n = Some (mkBlob (char_codes binaryString) "audio/mpeg") ∧
    length (object_urls (final_state run)) = S n.
Proof.
  intros Hk Hfail Hnet Hok Hbody Hbranch Htext Haudio Hatob Hanswer run. subst run.
  rewrite send_unfold.
  set (req := upload_request (processBlob P audioBlob) webhookUrl (begin_send σ).1).
  replace (S (S MAX_RETRIES)) with (k + S (S MAX_RETRIES - k)) by lia.
  destruct (send_loop_skips_extends P net req k 0 (S (S MAX_RETRIES - k)) None
              (begin_send σ).2) as (lastError' & σk & new & Hσk & Hnew & ->).
  { apply begin_send_fresh. }
  { lia. }
  { intros i Hi. apply Hfail. lia. }
  simpl (0 + k).
  rewrite send_loop_step by done.
  rewrite race_not_aborted
    by (rewrite (aborted_signals (begin_send σ).2 σk) by done; apply begin_send_fresh).
  rewrite Hnet. unfold resume_after_race. simpl race_settles.
  assert (after_race P (inr response) σk =
          (inr (JSON_stringify
                  (VObj [("text", text);
                         ("audioUrl", VStr (blob_url (length (object_urls σk))))])),
           mkState (abortController σk) (signals σk)
             (object_urls σk ++ [mkBlob (char_codes binaryString) "audio/mpeg"])))
    as ->.
  { simpl. rewrite Hok, Hbody. simpl.
    unfold normalize. rewrite Hbranch, Htext, Haudio.
    unfold structured. by rewrite Hatob, Hanswer. }
  exists (length (object_urls σk)).
  assert (object_urls (begin_send σ).2 = object_urls σ) as Hurls.
  { unfold begin_send. by destruct (abortController σ). }
  rewrite Hurls in Hnew.
  split; [rewrite Hnew, length_app; lia|].
  split; [done|]. simpl. split.
  - rewrite lookup_app_r by done. by rewrite Nat.sub_diag.
  - rewrite length_app. simpl. lia.
Qed.

Lemma spoken_reply_url_is_registered_witness :
  let run := sendAudioToWebhook desktop
               (λ i, if i =? 0 then FetchPending
                     else FetchResolves (json_reply spoken_reply))
               recording hook new_service in
  outcome run =
    Resolved (JSON_stringify (VObj [("text", VStr "Hei"); ("audioUrl", VStr "blob:0")])) ∧
  object_urls (final_state run) = [mkBlob [72; 101; 105] "audio/mpeg"].
Proof.
  destruct (spoken_reply_url_is_registered desktop
              (λ i, if i =? 0 then FetchPending
                    else FetchResolves (json_reply spoken_reply))
              recording hook new_service 1 (json_reply spoken_reply) spoken_reply
              (VStr "Hei") "data:audio/wav;base64,SGVp" "Hei" (VStr "Hei")
              ltac:(unfold MAX_RETRIES; lia))
    as (n & _ & Hout & _ & Hlen); try reflexivity.
  - intros i Hi. replace i with 0 by lia. apply pending_fetch_fails.
  - vm_compute in Hlen. injection Hlen as <-.
    split; [exact Hout|]. vm_compute. reflexivity.
Defined.

(** * Properties of the caller *)

Lemma last_voice_update_app a b :
  last_voice_update (a ++ b) =
  match last_voice_update b with
  | Some update => Some update
  | None => last_voice_update a
  end.
Proof. unfold last_voice_update. by rewrite omap_app, last_app. Qed.

Lemma toasts_app a b : toasts (a ++ b) = toasts a ++ toasts b.
Proof. apply omap_app. Qed.

Lemma assistant_messages_app a b :
  assistant_messages (a ++ b) = assistant_messages a ++ assistant_messages b.
Proof. apply omap_app. Qed.

Lemma played_app a b : played (a ++ b) = played a ++ played b.
Proof. apply omap_app. Qed.

(** With a recording that is not empty the hook calls the service, once. *)
Lemma stopRecordingAndSend_sends T P S webhookUrl σ audioBlob :
  recorded S = RecordingStops (Some audioBlob) →
  blob_content audioBlob ≠ [] →
  stopRecordingAndSend T P S webhookUrl σ =
  (stopping T ++ sending T ++
     match webhook_race S (sendAudioToWebhook P (network S) audioBlob webhookUrl σ) with
     | inl error => failure_report T error
     | inr responseData =>
         showing T ++ (showResponse T P S responseData).2 ++
         match (showResponse T P S responseData).1 with
         | None => success_report T
         | Some error => failure_report T error
         end
     end,
   Some (sendAudioToWebhook P (network S) audioBlob webhookUrl σ),
   final_state (sendAudioToWebhook P (network S) audioBlob webhookUrl σ)).
Proof.
  intros Hrecorded Hsize. unfold stopRecordingAndSend. rewrite Hrecorded.
  destruct (blob_content audioBlob) as [|byte bytes]; [done|].
  change (length (byte :: bytes) =? 0) with false. cbv iota.
  destruct (webhook_race S _) as [error|responseData]; [done|].
  by destruct (showResponse T P S responseData) as [thrown shown].
Qed.

(** The display block shows no toast and sets no voice state. *)
Lemma show_unparsed_quiet T S responseData :
  toasts (show_unparsed T S responseData).2 = [] ∧
  last_voice_update (show_unparsed T S responseData).2 = None.
Proof.
  unfold show_unparsed. destruct responseData as [| | | |s| |]; simpl;
    try done.
  by destruct (starts_with "blob:" s).
Qed.

Lemma showResponse_quiet T P S responseData :
  toasts (showResponse T P S responseData).2 = [] ∧
  last_voice_update (showResponse T P S responseData).2 = None.
Proof.
  unfold showResponse.
  destruct (JSON_parse P responseData) as [e|parsedResponse];
    [apply show_unparsed_quiet|].
  destruct (get parsedResponse "text") as [e|text]; [apply show_unparsed_quiet|].
  destruct (truthy text && truthy _); [|done].
  destruct (playAudio S _); [|done].
  pose proof (show_unparsed_quiet T S responseData) as [Htoasts Hvoice].
  destruct (show_unparsed T S responseData) as [thrown more].
  simpl in Htoasts, Hvoice. cbv beta iota zeta delta [snd].
  by rewrite toasts_app, Htoasts, last_voice_update_app, Hvoice.
Qed.

(** A truthy value that is not a string has no [startsWith] to call. *)
Lemma show_unparsed_not_a_string T S responseData :
  truthy responseData = true →
  (∀ s, responseData ≠ VStr s) →
  show_unparsed T S responseData = (Some (ThrowError startsWith_missing), []).
Proof.
  intros Htruthy Hstring.
  destruct responseData as [| | | |s| |]; try done.
  by destruct (Hstring s).
Qed.

(** X15.  A recording that cannot be used (stopping it failed or timed
    out, no blob came back, or the blob is empty) is not sent: the service
    is not called and its state is untouched, no user or assistant message
    is added, and the failure is reported with the [recordingFailed] text. *)
Theorem unusable_recording_is_not_sent T P S webhookUrl σ :
  recorded S = RecordingFails ∨ recorded S = RecordingStops None ∨
  (∃ audioBlob, recorded S = RecordingStops (Some audioBlob) ∧
                blob_content audioBlob = []) →
  ∃ actions,
    stopRecordingAndSend T P S webhookUrl σ = (actions, None, σ) ∧
    user_messages actions = [] ∧
    assistant_messages actions = [] ∧
    toasts actions = [(voiceError T, recordingFailed T, "destructive")] ∧
    last_voice_update actions =
      Some (Replace (mkVoiceState Idle false false (Some (recordingFailed T)))).
Proof.
  unfold stopRecordingAndSend.
  intros [->|[->|(audioBlob & -> & ->)]]; eexists; (split; [reflexivity|done]).
Qed.

Lemma unusable_recording_is_not_sent_witness :
  ∃ actions,
    stopRecordingAndSend (getTranslations en) desktop
      {| recorded := RecordingStops (Some (mkBlob [] "audio/webm"));
         network := λ _, FetchResolves (json_reply spoken_reply);
         webhook_timeout := false;
         playAudio := λ _, None |} hook new_service = (actions, None, new_service) ∧
    user_messages actions = [] ∧
    assistant_messages actions = [] ∧
    toasts actions =
      [("Voice command error", "Audio recording failed - no audio detected", "destructive")] ∧
    last_voice_update actions =
      Some (Replace (mkVoiceState Idle false false
                       (Some "Audio recording failed - no audio detected"))).
Proof.
  apply (unusable_recording_is_not_sent (getTranslations en) desktop
           {| recorded := RecordingStops (Some (mkBlob [] "audio/webm"));
              network := λ _, FetchResolves (json_reply spoken_reply);
              webhook_timeout := false;
              playAudio := λ _, None |} hook new_service).
  right. right. by exists (mkBlob [] "audio/webm").
Defined.

(** X16.  Whatever the recording, the network, the timer and the player
    do, a run of [stopRecordingAndSend] that finishes leaves the voice
    state idle, neither recording nor playing: its last voice update is a
    whole new idle state.  That state carries an error exactly when the run
    showed its one destructive toast, and the last action of the run is the
    closing system message. *)
Theorem run_ends_idle T P S webhookUrl σ :
  ∃ thrown : option Thrown,
    let actions := (stopRecordingAndSend T P S webhookUrl σ).1.1 in
    last_voice_update actions =
      Some (Replace (mkVoiceState Idle false false
                       (message_or (unknownError T) <$> thrown))) ∧
    toasts actions =
      match thrown with
      | None => []
      | Some error => [(voiceError T, message_or (tryAgain T) error, "destructive")]
      end ∧
    last actions =
      Some (AddSystemMessage
              match thrown with
              | None => readyForNext T
              | Some error => voiceError T +:+ ": " +:+ message_or (unknownError T) error
              end).
Proof.
  unfold stopRecordingAndSend.
  destruct (recorded S) as [[audioBlob|]|].
  - destruct (length (blob_content audioBlob) =? 0).
    { by exists (Some (ThrowError (new_Error (recordingFailed T)))). }
    destruct (webhook_race S _) as [error|responseData].
    { by exists (Some error). }
    pose proof (showResponse_quiet T P S responseData) as [Htoasts Hvoice].
    destruct (showResponse T P S responseData) as [thrown shown].
    simpl in Htoasts, Hvoice.
    exists thrown. cbn zeta. cbn [fst].
    rewrite !app_assoc.
    rewrite last_voice_update_app, toasts_app, last_app.
    rewrite <- !app_assoc.
    rewrite !toasts_app, Htoasts.
    by destruct thrown.
  - by exists (Some (ThrowError (new_Error (recordingFailed T)))).
  - by exists (Some (ThrowError (new_Error (recordingFailed T)))).
Qed.

(** X17.  When the service call rejects (after its last attempt, or
    because a newer call cancelled it) before the timer of the hook fires,
    the hook shows nothing of a reply and plays nothing; the message of the
    rejection is what the toast, the voice state and the closing system
    message carry. *)
Theorem service_rejection_is_reported T P S webhookUrl σ audioBlob e :
  recorded S = RecordingStops (Some audioBlob) →
  blob_content audioBlob ≠ [] →
  webhook_timeout S = false →
  outcome (sendAudioToWebhook P (network S) audioBlob webhookUrl σ) = Rejected e →
  let actions := (stopRecordingAndSend T P S webhookUrl σ).1.1 in
  assistant_messages actions = [] ∧
  played actions = [] ∧
  toasts actions = [(voiceError T, err_message e, "destructive")] ∧
  last_voice_update actions =
    Some (Replace (mkVoiceState Idle false false (Some (err_message e)))) ∧
  last actions = Some (AddSystemMessage (voiceError T +:+ ": " +:+ err_message e)).
Proof.
  intros Hrecorded Hsize Htimer Hrejected actions. subst actions.
  rewrite (stopRecordingAndSend_sends T P S webhookUrl σ audioBlob) by done.
  unfold webhook_race. by rewrite Htimer, Hrejected.
Qed.

Lemma service_rejection_is_reported_witness :
  let actions := (stopRecordingAndSend (getTranslations fi) desktop
                    (session (λ _, FetchResolves server_error)) hook new_service).1.1 in
  toasts actions =
    [("Virhe äänikäskyssä",
      "Palvelinyhteys epäonnistui", "destructive")] ∧
  assistant_messages actions = [].
Proof.
  destruct (service_rejection_is_reported (getTranslations fi) desktop
              (session (λ _, FetchResolves server_error)) hook new_service recording
              (new_Error "Palvelinyhteys epäonnistui")
              eq_refl ltac:(done) eq_refl eq_refl)
    as (Hassistant & _ & Htoasts & _).
  split; [exact Htoasts|exact Hassistant].
Defined.

(** X18.  When the 20 second timer of the hook fires first, the reply is
    dropped: nothing is shown or played and the run reports
    ["Webhook timeout"].  The service has been called all the same, and
    the hook does not cancel it: the controller of the call stays installed
    and is not aborted. *)
Theorem hook_timeout_drops_the_reply T P S webhookUrl σ audioBlob :
  recorded S = RecordingStops (Some audioBlob) →
  blob_content audioBlob ≠ [] →
  webhook_timeout S = true →
  let run := sendAudioToWebhook P (network S) audioBlob webhookUrl σ in
  ∃ actions,
    stopRecordingAndSend T P S webhookUrl σ = (actions, Some run, final_state run) ∧
    assistant_messages actions = [] ∧
    played actions = [] ∧
    toasts actions = [(voiceError T, "Webhook timeout", "destructive")] ∧
    abortController (final_state run) = Some (length (signals σ)) ∧
    aborted (final_state run) (length (signals σ)) = false.
Proof.
  intros Hrecorded Hsize Htimer run. subst run.
  rewrite (stopRecordingAndSend_sends T P S webhookUrl σ audioBlob) by done.
  unfold webhook_race. rewrite Htimer.
  eexists. split; [reflexivity|]. do 3 (split; [done|]).
  rewrite send_unfold.
  change (Datatypes.S (Datatypes.S MAX_RETRIES)) with (MAX_RETRIES + 2).
  destruct (send_loop_frame P (network S)
              (upload_request (processBlob P audioBlob) webhookUrl (begin_send σ).1)
              (MAX_RETRIES + 2) 0 None (begin_send σ).2) as [Hsignals Hctl].
  unfold aborted. rewrite Hsignals, Hctl. unfold begin_send.
  destruct (abortController σ) as [previous|]; simpl.
  - split; [by rewrite length_insert|].
    rewrite lookup_app_r by (by rewrite length_insert).
    by rewrite length_insert, Nat.sub_diag.
  - split; [done|]. rewrite lookup_app_r by done. by rewrite Nat.sub_diag.
Qed.

Lemma hook_timeout_drops_the_reply_witness :
  let S := {| recorded := RecordingStops (Some recording);
              network := λ _, FetchResolves (json_reply spoken_reply);
              webhook_timeout := true;
              playAudio := λ _, None |} in
  let result := stopRecordingAndSend (getTranslations en) desktop S hook new_service in
  toasts result.1.1 = [("Voice command error", "Webhook timeout", "destructive")] ∧
  played result.1.1 = [] ∧
  object_urls result.2 = [mkBlob [72; 101; 105] "audio/mpeg"].
Proof.
  destruct (hook_timeout_drops_the_reply (getTranslations en) desktop
              {| recorded := RecordingStops (Some recording);
                 network := λ _, FetchResolves (json_reply spoken_reply);
                 webhook_timeout := true;
                 playAudio := λ _, None |} hook new_service recording
              eq_refl ltac:(done) eq_refl)
    as (actions & Hrun & _ & Hplayed & Htoasts & _).
  cbv zeta. rewrite Hrun. split; [exact Htoasts|]. split; [exact Hplayed|].
  vm_compute. reflexivity.
Defined.

(** X19.  When the service resolves with a text that [JSON.parse] reads as
    a value with a truthy [text] and a truthy [audioUrl], and the player
    plays that URL, the run adds one assistant message holding both, hands
    the URL to the player once, shows no toast and ends idle without an
    error. *)
Theorem reply_with_audio_is_shown_and_played
    T P S webhookUrl σ audioBlob responseData parsedResponse text audioUrl :
  recorded S = RecordingStops (Some audioBlob) →
  blob_content audioBlob ≠ [] →
  webhook_timeout S = false →
  outcome (sendAudioToWebhook P (network S) audioBlob webhookUrl σ) = Resolved responseData →
  JSON_parse P responseData = inr parsedResponse →
  get parsedResponse "text" = inr text →
  get parsedResponse "audioUrl" = inr audioUrl →
  truthy text = true →
  truthy audioUrl = true →
  playAudio S audioUrl = None →
  let actions := (stopRecordingAndSend T P S webhookUrl σ).1.1 in
  assistant_messages actions = [(text, audioUrl)] ∧
  played actions = [audioUrl] ∧
  toasts actions = [] ∧
  last_voice_update actions = Some (Replace (mkVoiceState Idle false false None)).
Proof.
  intros Hrecorded Hsize Htimer Hresolved Hparse Htext Haudio Htruthy Htruthy' Hplay actions.
  subst actions.
  rewrite (stopRecordingAndSend_sends T P S webhookUrl σ audioBlob) by done.
  unfold webhook_race. rewrite Htimer, Hresolved.
  unfold showResponse. by rewrite Hparse, Htext, Haudio, Htruthy, Htruthy', Hplay.
Qed.

Lemma reply_with_audio_is_shown_and_played_witness :
  let run := stopRecordingAndSend (getTranslations fi) browser
               (session (λ _, FetchResolves (json_reply spoken_reply))) hook new_service in
  assistant_messages run.1.1 = [(VStr "Hei", VStr "blob:0")] ∧
  played run.1.1 = [VStr "blob:0"] ∧
  object_urls run.2 !! 0 = Some (mkBlob [72; 101; 105] "audio/mpeg").
Proof.
  destruct (reply_with_audio_is_shown_and_played (getTranslations fi) browser
              (session (λ _, FetchResolves (json_reply spoken_reply))) hook new_service
              recording (JSON_stringify spoken_pair) spoken_pair
              (VStr "Hei") (VStr "blob:0")
              eq_refl ltac:(done) eq_refl
              ltac:(vm_compute; reflexivity) ltac:(vm_compute; reflexivity)
              eq_refl eq_refl eq_refl eq_refl eq_refl)
    as (Hassistant & Hplayed & _).
  split; [exact Hassistant|]. split; [exact Hplayed|]. vm_compute. reflexivity.
Defined.

(** X20.  When the service resolved with the JSON text of an object whose
    [text] and [audioUrl] are truthy and the player then rejects, the
    rejection is swallowed: the raw JSON text is added as a second assistant
    message, no toast is shown, and the run ends idle without an error. *)
Theorem failed_playback_shows_raw_json
    T P S webhookUrl σ audioBlob props error :
  recorded S = RecordingStops (Some audioBlob) →
  blob_content audioBlob ≠ [] →
  webhook_timeout S = false →
  outcome (sendAudioToWebhook P (network S) audioBlob webhookUrl σ)
    = Resolved (JSON_stringify (VObj props)) →
  JSON_parse P (JSON_stringify (VObj props)) = inr (VObj props) →
  truthy (lookup_prop "text" props) = true →
  truthy (lookup_prop "audioUrl" props) = true →
  playAudio S (lookup_prop "audioUrl" props) = Some error →
  let actions := (stopRecordingAndSend T P S webhookUrl σ).1.1 in
  assistant_messages actions =
    [(lookup_prop "text" props, lookup_prop "audioUrl" props);
     (JSON_stringify (VObj props), VUndefined)] ∧
  played actions = [lookup_prop "audioUrl" props] ∧
  toasts actions = [] ∧
  last_voice_update actions = Some (Replace (mkVoiceState Idle false false None)).
Proof.
  intros Hrecorded Hsize Htimer Hresolved Hparse Htruthy Htruthy' Hplay actions.
  subst actions.
  rewrite (stopRecordingAndSend_sends T P S webhookUrl σ audioBlob) by done.
  unfold webhook_race. rewrite Htimer, Hresolved.
  unfold showResponse. rewrite Hparse. cbn [get].
  rewrite Htruthy, Htruthy', Hplay.
  unfold JSON_stringify. cbn [serialize].
  unfold show_unparsed.
  change (starts_with "blob:" ("{" +:+ ?rest)) with false. done.
Qed.

Lemma failed_playback_shows_raw_json_witness :
  let S := {| recorded := RecordingStops (Some recording);
              network := λ _, FetchResolves (json_reply spoken_reply);
              webhook_timeout := false;
              playAudio := λ _, Some (ThrowError NotSupportedError) |} in
  let actions := (stopRecordingAndSend (getTranslations fi) browser S hook new_service).1.1 in
  assistant_messages actions =
    [(VStr "Hei", VStr "blob:0"); (JSON_stringify spoken_pair, VUndefined)] ∧
  toasts actions = [].
Proof.
  destruct (failed_playback_shows_raw_json (getTranslations fi) browser
              {| recorded := RecordingStops (Some recording);
                 network := λ _, FetchResolves (json_reply spoken_reply);
                 webhook_timeout := false;
                 playAudio := λ _, Some (ThrowError NotSupportedError) |}
              hook new_service recording
              [("text", VStr "Hei"); ("audioUrl", VStr "blob:0")]
              (ThrowError NotSupportedError)
              eq_refl ltac:(done) eq_refl
              ltac:(vm_compute; reflexivity) ltac:(vm_compute; reflexivity)
              eq_refl eq_refl eq_refl)
    as (Hassistant & _ & Htoasts & _).
  split; [exact Hassistant|exact Htoasts].
Defined.

(** X21.  When the service resolves with a text that [JSON.parse] rejects
    and that does not begin with ["blob:"], the run adds that text as its
    one assistant message, without audio, plays nothing and ends idle without
    an error. *)
Theorem plain_text_reply_is_shown T P S webhookUrl σ audioBlob s :
  recorded S = RecordingStops (Some audioBlob) →
  blob_content audioBlob ≠ [] →
  webhook_timeout S = false →
  outcome (sendAudioToWebhook P (network S) audioBlob webhookUrl σ) = Resolved (VStr s) →
  is_thrown (JSON_parse P (VStr s)) = true →
  starts_with "blob:" s = false →
  let actions := (stopRecordingAndSend T P S webhookUrl σ).1.1 in
  assistant_messages actions = [(VStr s, VUndefined)] ∧
  played actions = [] ∧
  toasts actions = [] ∧
  last_voice_update actions = Some (Replace (mkVoiceState Idle false false None)).
Proof.
  intros Hrecorded Hsize Htimer Hresolved Hparse Hprefix actions. subst actions.
  rewrite (stopRecordingAndSend_sends T P S webhookUrl σ audioBlob) by done.
  unfold webhook_race. rewrite Htimer, Hresolved.
  unfold showResponse.
  destruct (JSON_parse P (VStr s)) as [e|parsedResponse]; [|done].
  unfold show_unparsed. by rewrite Hprefix.
Qed.

Lemma plain_text_reply_is_shown_witness :
  let actions :=
    (stopRecordingAndSend (getTranslations fi) desktop
       (session (λ _, FetchResolves (json_reply (VObj [("answer", VStr "Hei")]))))
       hook new_service).1.1 in
  assistant_messages actions = [(VStr "Hei", VUndefined)] ∧ played actions = [].
Proof.
  destruct (plain_text_reply_is_shown (getTranslations fi) desktop
              (session (λ _, FetchResolves (json_reply (VObj [("answer", VStr "Hei")]))))
              hook new_service recording "Hei"
              eq_refl ltac:(done) eq_refl ltac:(vm_compute; reflexivity) eq_refl eq_refl)
    as (Hassistant & Hplayed & _).
  split; [exact Hassistant|exact Hplayed].
Defined.

(** X22.  A resolved text that [JSON.parse] rejects and that begins with
    ["blob:"] is never shown as text: the assistant message reads
    ['Äänivastaus'] and carries the text as its audio URL, and the text is
    handed to the player.  A rejection of the player is not swallowed here:
    it ends the run with the failure report. *)
Theorem blob_text_is_played_not_shown T P S webhookUrl σ audioBlob s :
  recorded S = RecordingStops (Some audioBlob) →
  blob_content audioBlob ≠ [] →
  webhook_timeout S = false →
  outcome (sendAudioToWebhook P (network S) audioBlob webhookUrl σ) = Resolved (VStr s) →
  is_thrown (JSON_parse P (VStr s)) = true →
  starts_with "blob:" s = true →
  let actions := (stopRecordingAndSend T P S webhookUrl σ).1.1 in
  assistant_messages actions = [(VStr "Äänivastaus", VStr s)] ∧
  played actions = [VStr s] ∧
  toasts actions =
    match playAudio S (VStr s) with
    | None => []
    | Some error => [(voiceError T, message_or (tryAgain T) error, "destructive")]
    end ∧
  last_voice_update actions =
    Some (Replace (mkVoiceState Idle false false
                     (message_or (unknownError T) <$> playAudio S (VStr s)))).
Proof.
  intros Hrecorded Hsize Htimer Hresolved Hparse Hprefix actions. subst actions.
  rewrite (stopRecordingAndSend_sends T P S webhookUrl σ audioBlob) by done.
  unfold webhook_race. rewrite Htimer, Hresolved.
  unfold showResponse.
  destruct (JSON_parse P (VStr s)) as [e|parsedResponse]; [|done].
  unfold show_unparsed. rewrite Hprefix.
  by destruct (playAudio S (VStr s)).
Qed.

Lemma blob_text_is_played_not_shown_witness :
  let S := {| recorded := RecordingStops (Some recording);
              network := λ _, FetchResolves (json_reply (VObj [("answer", VStr "blob:Hei")]));
              webhook_timeout := false;
              playAudio := λ _, Some (ThrowError NotSupportedError) |} in
  let result := stopRecordingAndSend (getTranslations en) desktop S hook new_service in
  assistant_messages result.1.1 = [(VStr "Äänivastaus", VStr "blob:Hei")] ∧
  toasts result.1.1 =
    [("Voice command error", "The element has no supported sources.", "destructive")] ∧
  object_urls result.2 = [].
Proof.
  destruct (blob_text_is_played_not_shown (getTranslations en) desktop
              {| recorded := RecordingStops (Some recording);
                 network := λ _, FetchResolves (json_reply (VObj [("answer", VStr "blob:Hei")]));
                 webhook_timeout := false;
                 playAudio := λ _, Some (ThrowError NotSupportedError) |}
              hook new_service recording "blob:Hei"
              eq_refl ltac:(done) eq_refl ltac:(vm_compute; reflexivity) eq_refl eq_refl)
    as (Hassistant & _ & Htoasts & _).
  split; [exact Hassistant|]. split; [exact Htoasts|]. vm_compute. reflexivity.
Defined.

(** X23.  When the service resolves with a value that is not a string (a
    legacy reply whose [answer] or [response] is an object, an array, a
    number or [true]) and [JSON.parse] rejects it, the display fails with a
    [TypeError] on [responseData.startsWith]: nothing is shown or played,
    and the run ends with the failure report for that error. *)
Theorem non_string_reply_fails_the_display T P S webhookUrl σ audioBlob responseData :
  recorded S = RecordingStops (Some audioBlob) →
  blob_content audioBlob ≠ [] →
  webhook_timeout S = false →
  outcome (sendAudioToWebhook P (network S) audioBlob webhookUrl σ) = Resolved responseData →
  (∀ s, responseData ≠ VStr s) →
  is_thrown (JSON_parse P responseData) = true →
  let actions := (stopRecordingAndSend T P S webhookUrl σ).1.1 in
  ∃ e,
    is_TypeError e = true ∧
    assistant_messages actions = [] ∧
    played actions = [] ∧
    toasts actions = [(voiceError T, err_message e, "destructive")] ∧
    last_voice_update actions =
      Some (Replace (mkVoiceState Idle false false (Some (err_message e)))).
Proof.
  intros Hrecorded Hsize Htimer Hresolved Hstring Hparse actions. subst actions.
  assert (truthy responseData = true) as Htruthy.
  { rewrite send_unfold in Hresolved. by apply send_loop_truthy in Hresolved. }
  rewrite (stopRecordingAndSend_sends T P S webhookUrl σ audioBlob) by done.
  unfold webhook_race. rewrite Htimer, Hresolved.
  unfold showResponse.
  destruct (JSON_parse P responseData) as [e|parsedResponse]; [|done].
  rewrite (show_unparsed_not_a_string T S responseData) by done.
  by exists startsWith_missing.
Qed.

Lemma non_string_reply_fails_the_display_witness :
  let actions := (stopRecordingAndSend (getTranslations en) desktop
                    (session (λ _, FetchResolves (json_reply nested_reply)))
                    hook new_service).1.1 in
  ∃ e,
    is_TypeError e = true ∧
    assistant_messages actions = [] ∧
    played actions = [] ∧
    toasts actions = [("Voice command error", err_message e, "destructive")] ∧
    last_voice_update actions =
      Some (Replace (mkVoiceState Idle false false (Some (err_message e)))).
Proof.
  apply (non_string_reply_fails_the_display (getTranslations en) desktop
           (session (λ _, FetchResolves (json_reply nested_reply)))
           hook new_service recording (VObj [("text", VStr "Hei")]));
    [reflexivity|done|reflexivity|vm_compute; reflexivity|done|reflexivity].
Defined.
